(** * Shelter service areas: road graph construction and budgeted search

    A verification development for the evacuation-shelter part of
    [src/algorithms/utils/area_data_generator.py]:

    - [__extract_road_nodes]  builds a [QgsGraph] from road line features,
    - [nearest_point]         picks the [k] graph vertices nearest to a shelter,
    - [dijkstra]              searches the graph within a distance budget and
                              buffers the road segments it walks along,
    - the loop of [create_shelter_area] that stores the buffered area.

    Numbers.  The source computes with Python floats.  The embedding uses
    exact integers ([Z]) for coordinates, segment lengths and cumulative
    distances: additions and comparisons are then exact, and integer-valued
    inputs (as in every scenario below) behave as they do in the source.  The
    one division of the program, the buffer width, is carried out in [Q].
    The square root of the Euclidean length is the integer square root; it is
    exact whenever the length of the segment is an integer. *)

From Stdlib Require Import ZArith QArith List Bool Arith Lia Sorted Permutation.
From Stdlib Require String.
Import ListNotations.
Import String.StringSyntax.

#[local] Close Scope Q_scope.
#[local] Open Scope Z_scope.

(** ** Python: exceptions, results and the [for] loop *)

Module Py.

Inductive exn : Set :=
| ZeroDivisionError   (* [a / 0] *)
| IndexError          (* a vertex or edge index the graph does not have *)
| KeyError            (* [d[k]] for an absent key *)
| TypeError           (* [str.replace] given a non-string *)
| ValueError.         (* [max([])] *)

Inductive result (A : Type) : Type :=
| Returns (a : A)
| Raises (e : exn).
Arguments Returns {A} a.
Arguments Raises {A} e.

Definition bind {A B} (c : result A) (k : A -> result B) : result B :=
  match c with
  | Returns a => k a
  | Raises e => Raises e
  end.

(** [for x in xs: st = body(st, x)], stopping at the first exception. *)
Fixpoint for_each {S X} (body : S -> X -> result S) (xs : list X) (st : S)
  : result S :=
  match xs with
  | [] => Returns st
  | x :: xs' => bind (body st x) (for_each body xs')
  end.

(** [a / b] on numbers: true division, raising on a zero divisor. *)
Definition truediv (a b : Z) : result Q :=
  if b =? 0 then Raises ZeroDivisionError
  else Returns (inject_Z a / inject_Z b)%Q.

End Py.
Export Py.

Declare Scope py_scope.
Notation "x <- c ;; k" := (bind c (fun x => k))
  (at level 61, c at next level, right associativity) : py_scope.
#[local] Open Scope py_scope.

(** ** QGIS: points, graphs, and the objects that meet in a Python set *)

Module Qgs.

(** [QgsPointXY]. *)
Record QgsPointXY : Set := PointXY { x : Z; y : Z }.

(** A coordinate tuple [(x, y)], as [dijkstra] stores them. *)
Definition coord : Set := (Z * Z)%type.

Definition xy (p : QgsPointXY) : coord := (x p, y p).

Definition coord_eqb (a b : coord) : bool :=
  (fst a =? fst b) && (snd a =? snd b).

(** [QgsPointXY.__eq__]: equal coordinates. *)
Definition point_eqb (p q : QgsPointXY) : bool := coord_eqb (xy p) (xy q).

(** The Python objects that [dijkstra] compares and looks up in its set:
    coordinate tuples and [QgsPointXY] objects.  [QgsPointXY.__eq__] accepts
    another [QgsPointXY] only, and a tuple is equal to tuples only, so
    [==] between a point object and a tuple is false whatever the
    coordinates are.  (The source itself converts a point to the tuple
    [(p.x(), p.y())] wherever it compares one with [current_node].) *)
Inductive pyobj : Set :=
| PyTuple (c : coord)
| PyPoint (p : QgsPointXY).

Definition py_eq (a b : pyobj) : bool :=
  match a, b with
  | PyTuple c1, PyTuple c2 => coord_eqb c1 c2
  | PyPoint p1, PyPoint p2 => point_eqb p1 p2
  | PyTuple _, PyPoint _ => false
  | PyPoint _, PyTuple _ => false
  end.

(** [o in s] for a set [s] of coordinate tuples. *)
Definition py_in (o : pyobj) (s : list coord) : bool :=
  existsb (fun c => py_eq o (PyTuple c)) s.

(** [s.add(c)]. *)
Definition set_add (c : coord) (s : list coord) : list coord :=
  if py_in (PyTuple c) s then s else c :: s.

(** [QgsGeometry.fromPolylineXY([p1, p2]).length()], also the distance of
    two point geometries: the Euclidean length. *)
Definition euclid (p q : QgsPointXY) : Z :=
  Z.sqrt ((x q - x p) * (x q - x p) + (y q - y p) * (y q - y p)).

(** [QgsGraphEdge]: a directed edge with the cost of strategy 0. *)
Record QgsGraphEdge : Set :=
  GraphEdge { fromVertex : nat; toVertex : nat; cost : Z }.

(** [QgsGraph]: vertex [i] is the [i]-th point added, edge [j] the [j]-th
    edge added.  A vertex's outgoing (incoming) edges are the edges that
    leave (enter) it, in the order they were added. *)
Record QgsGraph : Set :=
  Graph { vertices : list QgsPointXY; edges : list QgsGraphEdge }.

Definition empty_graph : QgsGraph := Graph [] [].

Definition vertexCount (g : QgsGraph) : nat := length (vertices g).
Definition edgeCount (g : QgsGraph) : nat := length (edges g).

(** [graph.vertex(i).point()] *)
Definition vertex_point (g : QgsGraph) (i : nat) : result QgsPointXY :=
  match nth_error (vertices g) i with
  | Some p => Returns p
  | None => Raises IndexError
  end.

(** [graph.edge(j)] *)
Definition edge (g : QgsGraph) (j : nat) : result QgsGraphEdge :=
  match nth_error (edges g) j with
  | Some e => Returns e
  | None => Raises IndexError
  end.

(** Indices of the edges that satisfy [f], ascending. *)
Fixpoint edge_ids (f : QgsGraphEdge -> bool) (j : nat)
  (es : list QgsGraphEdge) : list nat :=
  match es with
  | [] => []
  | e :: es' =>
      if f e then j :: edge_ids f (S j) es' else edge_ids f (S j) es'
  end.

Definition outgoingEdges (g : QgsGraph) (v : nat) : list nat :=
  edge_ids (fun e => Nat.eqb (fromVertex e) v) 0 (edges g).

Definition incomingEdges (g : QgsGraph) (v : nat) : list nat :=
  edge_ids (fun e => Nat.eqb (toVertex e) v) 0 (edges g).

(** [graph.findVertex(pt)]: the first vertex at [pt]; [None] is [-1]. *)
Fixpoint find_from (pt : QgsPointXY) (i : nat) (vs : list QgsPointXY)
  : option nat :=
  match vs with
  | [] => None
  | v :: vs' => if point_eqb v pt then Some i else find_from pt (S i) vs'
  end.

Definition findVertex (g : QgsGraph) (pt : QgsPointXY) : option nat :=
  find_from pt 0 (vertices g).

(** [QgsGraphBuilder.addVertex(id, pt)]: the graph appends the point; the
    id passed by the caller is not used by the builder. *)
Definition addVertex (g : QgsGraph) (pt : QgsPointXY) : QgsGraph :=
  Graph (vertices g ++ [pt]) (edges g).

(** [QgsGraphBuilder.addEdge(id1, p1, id2, p2, [c])] *)
Definition addEdge (g : QgsGraph) (id1 id2 : nat) (c : Z) : QgsGraph :=
  Graph (vertices g) (edges g ++ [GraphEdge id1 id2 c]).

(** Every edge joins two vertices of the graph. *)
Definition graph_wf (g : QgsGraph) : Prop :=
  Forall (fun e => (fromVertex e < vertexCount g)%nat
                   /\ (toVertex e < vertexCount g)%nat) (edges g).

(** Road features: the geometry is all the builder reads. *)
Inductive QgsGeometry : Set :=
| EmptyGeometry
| LineString (line : list QgsPointXY)
| MultiLineString (lines : list (list QgsPointXY))
| OtherGeometry.       (* any other [wkbType] *)

End Qgs.
Export Qgs.

(** ** Shapely: buffered lines and their union *)

Module Shapely.

(** The polygon [LineString([start, end]).buffer(buff)].  The polygon is
    determined by the segment and the width; [at_distance] records the
    cumulative distance [new_distance] from which [dijkstra] computed the
    width (it is not part of the geometry). *)
Record buffered_line : Set :=
  BufferedLine { line_start : QgsPointXY; line_end : QgsPointXY;
                 buff : Q; at_distance : Z }.

(** A line buffered by a width that is not positive has no area: shapely
    returns the empty polygon. *)
Definition polygon_is_empty (b : buffered_line) : bool :=
  Qle_bool (buff b) 0.

(** The Python class of a geometry, which [isinstance] tests. *)
Inductive geometry_class : Set := Polygon | MultiPolygon | GeometryCollection.

(** The geometry [unary_union(polygons)]: its class and the polygons it is
    the union of. *)
Record geometry : Set :=
  Geometry { geom_class : geometry_class; members : list buffered_line }.

Definition is_empty (u : geometry) : bool :=
  forallb polygon_is_empty (members u).

(** The bounding box [(minx, miny, maxx, maxy)] of a buffered line: the box
    of the segment grown by the width on every side. *)
Definition bounds (b : buffered_line) : Q * Q * Q * Q :=
  let x1 := x (line_start b) in let x2 := x (line_end b) in
  let y1 := y (line_start b) in let y2 := y (line_end b) in
  (inject_Z (Z.min x1 x2) - buff b, inject_Z (Z.min y1 y2) - buff b,
   inject_Z (Z.max x1 x2) + buff b, inject_Z (Z.max y1 y2) + buff b)%Q.

(** The box lies in the square of half side [r] around [c]. *)
Definition within (c : QgsPointXY) (r : Z) (b : buffered_line) : Prop :=
  let '(minx, miny, maxx, maxy) := bounds b in
  (inject_Z (x c - r) <= minx /\ inject_Z (y c - r) <= miny
   /\ maxx <= inject_Z (x c + r) /\ maxy <= inject_Z (y c + r))%Q.

Section Union.

(** Whether the union of a non-empty list of polygons comes out of GEOS
    as one part or several depends on the shapes; the embedding takes
    that answer as given. *)
Variable union_class : list buffered_line -> geometry_class.

(** [unary_union(polygons)]; of no polygons at all it is
    [GEOMETRYCOLLECTION EMPTY]. *)
Definition unary_union (polygons : list buffered_line) : geometry :=
  match polygons with
  | [] => Geometry GeometryCollection []
  | _ :: _ => Geometry (union_class polygons) polygons
  end.

End Union.

End Shapely.
Export Shapely.

(** ** [heapq] on entries [(distance, (x, y))] *)

Module Heapq.

Definition entry : Set := (Z * coord)%type.

(** Tuples compare lexicographically. *)
Definition entry_leb (a b : entry) : bool :=
  let '(d1, (x1, y1)) := a in
  let '(d2, (x2, y2)) := b in
  (d1 <? d2)
  || ((d1 =? d2) && ((x1 <? x2) || ((x1 =? x2) && (y1 <=? y2)))).

(** The heap is kept as the ascending list of its entries: [heappop]
    returns the least entry of the heap, and entries that compare equal
    are equal, so the entries come out in the same order as from the
    array that [heapq] maintains. *)
Fixpoint heappush (heap : list entry) (item : entry) : list entry :=
  match heap with
  | [] => [item]
  | h :: t => if entry_leb item h then item :: heap else h :: heappush t item
  end.

Definition heapify (l : list entry) : list entry := fold_left heappush l [].

Definition heappop (heap : list entry) : option (entry * list entry) :=
  match heap with
  | [] => None
  | h :: t => Some (h, t)
  end.

End Heapq.
Export Heapq.

(** ** The methods of [AreaDataGenerator] *)

Module AreaDataGenerator.

(** *** [__extract_road_nodes] *)

(** The local variables of the method that outlive an iteration.  (The
    counters [total_count] and [linestring_count] are written and never
    read; they are left out.) *)
Record builder_state : Set :=
  BuilderState { builder : QgsGraph;
                 vertex_map : list (QgsPointXY * nat);
                 vertex_id_counter : nat }.

(** [vertex_map.get(p)] on the dictionary kept as a list of items. *)
Fixpoint vertex_map_get (p : QgsPointXY) (m : list (QgsPointXY * nat))
  : option nat :=
  match m with
  | [] => None
  | (q, id) :: m' => if point_eqb q p then Some id else vertex_map_get p m'
  end.

(** [vertex_map[p]] *)
Definition vertex_map_item (p : QgsPointXY) (m : list (QgsPointXY * nat))
  : result nat :=
  match vertex_map_get p m with
  | Some id => Returns id
  | None => Raises KeyError
  end.

(** [if p not in vertex_map: ...] *)
Definition ensure_vertex (st : builder_state) (p : QgsPointXY)
  : builder_state :=
  match vertex_map_get p (vertex_map st) with
  | Some _ => st
  | None =>
      BuilderState (addVertex (builder st) p)
                   ((p, vertex_id_counter st) :: vertex_map st)
                   (S (vertex_id_counter st))
  end.

(** The body of [for i in range(len(line) - 1)] for [p1 = line[i]],
    [p2 = line[i + 1]]. *)
Definition add_segment (st : builder_state) (p1 p2 : QgsPointXY)
  : result builder_state :=
  let st := ensure_vertex st p1 in
  let st := ensure_vertex st p2 in
  id1 <- vertex_map_item p1 (vertex_map st) ;;
  id2 <- vertex_map_item p2 (vertex_map st) ;;
  Returns (BuilderState (addEdge (builder st) id1 id2 (euclid p1 p2))
                        (vertex_map st) (vertex_id_counter st)).

(** [for i in range(len(line) - 1)]: the consecutive pairs of the line.  A
    line of fewer than two points has none, which is also what the guard
    [if len(line) < 2: continue] gives. *)
Fixpoint add_line (st : builder_state) (line : list QgsPointXY)
  : result builder_state :=
  match line with
  | p1 :: ((p2 :: _) as rest) =>
      st' <- add_segment st p1 p2 ;; add_line st' rest
  | _ => Returns st
  end.

(** The body of [for road_feature in roads].  In the last branch the
    warning text is built with [str.replace("%1", geom_type)], whose second
    argument is the geometry type and not a string. *)
Definition add_feature (st : builder_state) (road_geom : QgsGeometry)
  : result builder_state :=
  match road_geom with
  | EmptyGeometry => Returns st
  | LineString line => for_each add_line [line] st
  | MultiLineString lines => for_each add_line lines st
  | OtherGeometry => Raises TypeError
  end.

Definition extract_road_nodes (roads : list QgsGeometry) : result QgsGraph :=
  st <- for_each add_feature roads (BuilderState empty_graph [] 0) ;;
  Returns (builder st).

(** *** [calculate_meter] *)

Definition calculate_meter (starting_point destination : coord) : Z :=
  euclid (PointXY (fst starting_point) (snd starting_point))
         (PointXY (fst destination) (snd destination)).

(** *** [dijkstra] *)

Record search_state : Set :=
  SearchState { searched_list : list coord;
                searched_roads : list buffered_line;
                priority_queue : list entry }.

(** What the loop does with a popped entry. *)
Inductive pop_branch : Set :=
| AlreadySearched               (* [if current_node in searched_list: continue] *)
| OverBudget                    (* [if current_distance > max_distance: continue] *)
| VertexNotFound                (* [if vertex_id == -1: continue] *)
| Expand (vertex_id : nat).     (* the edges of the vertex are examined *)

Section Dijkstra.

Variable union_class : list buffered_line -> geometry_class.
Variable graph : QgsGraph.
Variable max_distance : Z.
Variable buffer_distance : Z.

Definition branch_of (searched : list coord) (item : entry) : pop_branch :=
  let '(current_distance, current_node) := item in
  if py_in (PyTuple current_node) searched then AlreadySearched
  else if max_distance <? current_distance then OverBudget
  else
    match findVertex graph (PointXY (fst current_node) (snd current_node)) with
    | None => VertexNotFound
    | Some vertex_id => Expand vertex_id
    end.

(** The far end of an edge seen from [current_node]; [None] is the
    [else: continue] of the comparison chain. *)
Definition far_end (current_node : coord) (start_node end_node : QgsPointXY)
  : option QgsPointXY :=
  if coord_eqb current_node (xy start_node) then Some end_node
  else if coord_eqb current_node (xy end_node) then Some start_node
  else None.

(** The guard of the push: [next_node not in searched_list and
    new_distance <= max_distance].  [next_node] is the [QgsPointXY] that
    [graph.vertex(..).point()] returned. *)
Definition push_guard (searched : list coord) (next_node : QgsPointXY)
  (new_distance : Z) : bool :=
  negb (py_in (PyPoint next_node) searched)
  && (new_distance <=? max_distance).

(** The body of [for edge_idx in outgoingEdges() + incomingEdges()]. *)
Definition examine_edge (current_distance : Z) (current_node : coord)
  (st : search_state) (edge_idx : nat) : result search_state :=
  e <- edge graph edge_idx ;;
  start_node <- vertex_point graph (fromVertex e) ;;
  end_node <- vertex_point graph (toVertex e) ;;
  let length := cost e in
  match far_end current_node start_node end_node with
  | None => Returns st
  | Some next_node =>
      let new_distance := current_distance + length in
      if push_guard (searched_list st) next_node new_distance then
        let queue := heappush (priority_queue st) (new_distance, xy next_node) in
        if new_distance <=? max_distance then
          width <- truediv (buffer_distance * (max_distance - new_distance))
                           max_distance ;;
          let buffered_line :=
            BufferedLine start_node end_node width new_distance in
          Returns (SearchState (searched_list st)
                               (searched_roads st ++ [buffered_line]) queue)
        else
          Returns (SearchState (searched_list st) (searched_roads st) queue)
      else Returns st
  end.

(** The body of [while priority_queue]. *)
Definition while_body (st : search_state) : result search_state :=
  match heappop (priority_queue st) with
  | None => Returns st
  | Some ((current_distance, current_node), queue) =>
      let popped := SearchState (searched_list st) (searched_roads st) queue in
      let marked :=
        SearchState (set_add current_node (searched_list st))
                    (searched_roads st) queue in
      match branch_of (searched_list st) (current_distance, current_node) with
      | AlreadySearched => Returns popped
      | OverBudget => Returns marked
      | VertexNotFound => Returns marked
      | Expand vertex_id =>
          for_each (examine_edge current_distance current_node)
                   (outgoingEdges graph vertex_id
                    ++ incomingEdges graph vertex_id)
                   marked
      end
  end.

(** [while priority_queue: ...], at most [fuel] iterations; [None] when
    the queue is still not empty after them. *)
Fixpoint while_priority_queue (fuel : nat) (st : search_state)
  : option (result search_state) :=
  match priority_queue st with
  | [] => Some (Returns st)
  | _ :: _ =>
      match fuel with
      | O => None
      | S fuel' =>
          match while_body st with
          | Raises e => Some (Raises e)
          | Returns st' => while_priority_queue fuel' st'
          end
      end
  end.

(** The state before the loop. *)
Definition initial_state (start_points : list QgsPointXY) : search_state :=
  SearchState [] []
    (heapify (map (fun start => (0, (x start, y start))) start_points)).

(** A number of iterations that the loop never exceeds (see
    [while_priority_queue_terminates]). *)
Definition pop_bound (start_points : list QgsPointXY) : nat :=
  (length start_points + vertexCount graph * (2 * edgeCount graph))%nat.

(** The loop of [dijkstra], from the initial state. *)
Definition search (start_points : list QgsPointXY)
  : option (result search_state) :=
  while_priority_queue (pop_bound start_points) (initial_state start_points).

(** [dijkstra(graph, start_points, max_distance, shelters_inf,
    buffer_distance)]; the argument [shelters_inf] is not used by the
    method.  [None]: the loop did not finish within [pop_bound]. *)
Definition dijkstra (start_points : list QgsPointXY)
  : option (result (list geometry)) :=
  match search start_points with
  | None => None
  | Some r =>
      Some (st <- r ;; Returns [unary_union union_class (searched_roads st)])
  end.

End Dijkstra.

(** *** [nearest_point] *)

(** The distances kept in [nearest]: a number or [float('inf')]. *)
Inductive pyfloat : Set := Finite (d : Z) | Infinity.

Definition float_ltb (a b : pyfloat) : bool :=
  match a, b with
  | Finite a, Finite b => a <? b
  | Finite _, Infinity => true
  | Infinity, _ => false
  end.

Definition float_eqb (a b : pyfloat) : bool :=
  match a, b with
  | Finite a, Finite b => a =? b
  | Infinity, Infinity => true
  | _, _ => false
  end.

(** [max(l)]: the first greatest element. *)
Definition py_max (l : list pyfloat) : result pyfloat :=
  match l with
  | [] => Raises ValueError
  | a :: t => Returns (fold_left (fun m v => if float_ltb m v then v else m) t a)
  end.

(** [l.index(v)] *)
Fixpoint py_index (v : pyfloat) (l : list pyfloat) : result nat :=
  match l with
  | [] => Raises ValueError
  | a :: t => if float_eqb a v then Returns O
              else i <- py_index v t ;; Returns (S i)
  end.

(** [l[i] = v] *)
Fixpoint set_item {A} (l : list A) (i : nat) (v : A) : result (list A) :=
  match l, i with
  | [], _ => Raises IndexError
  | _ :: t, O => Returns (v :: t)
  | a :: t, S i' => t' <- set_item t i' v ;; Returns (a :: t')
  end.

(** The body of [for vertex_id in range(node_graph.vertexCount())], on the
    lists [nearest] and [nearest_points]. *)
Definition nearest_visit (point : QgsPointXY)
  (st : list pyfloat * list QgsPointXY) (node_point : QgsPointXY)
  : result (list pyfloat * list QgsPointXY) :=
  let '(nearest, nearest_points) := st in
  let distance := Finite (calculate_meter (xy point) (xy node_point)) in
  m <- py_max nearest ;;
  if float_ltb distance m then
    m' <- py_max nearest ;;
    max_idx <- py_index m' nearest ;;
    nearest' <- set_item nearest max_idx distance ;;
    nearest_points' <- set_item nearest_points max_idx node_point ;;
    Returns (nearest', nearest_points')
  else Returns st.

Definition nearest_point (node_graph : QgsGraph) (point : QgsPointXY) (k : nat)
  : result (list QgsPointXY) :=
  st <- for_each (nearest_visit point) (vertices node_graph)
                 (repeat Infinity k, repeat point k) ;;
  Returns (snd st).

(** *** The loop of [create_shelter_area] over the result of [dijkstra] *)

(** A feature of the layer [shelter_buffers]: its geometry and the
    attribute [shelter_id]. *)
Record QgsFeature : Set :=
  Feature { feature_geometry : geometry; shelter_id : Z }.

(** The layer and what was printed. *)
Inductive message : Set := NotAPolygon.

Record output : Set :=
  Output { shelter_buffer_layer : list QgsFeature; printed : list message }.

(** [for buffered_polygon in merge_searched_road:
       if isinstance(buffered_polygon, Polygon): ...addFeature...
       else: print(...)] *)
Definition add_buffered_polygons (fid : Z) (merge_searched_road : list geometry)
  (out : output) : output :=
  fold_left
    (fun out buffered_polygon =>
       match geom_class buffered_polygon with
       | Polygon =>
           Output (shelter_buffer_layer out ++ [Feature buffered_polygon fid])
                  (printed out)
       | _ => Output (shelter_buffer_layer out) (printed out ++ [NotAPolygon])
       end)
    merge_searched_road out.

(** A shelter feature: its [fid], its point and its attribute [scale]. *)
Record shelter : Set :=
  Shelter { fid : Z; shelter_point : QgsPointXY; scale : Z }.

(** One iteration of [for shelter_feature in shelters_layer.getFeatures()],
    for the roads [nearby_roads] that the request returned. *)
Definition shelter_area (union_class : list buffered_line -> geometry_class)
  (distance : Z) (nearby_roads : list QgsGeometry) (shelter_feature : shelter)
  (out : output) : option (result output) :=
  match extract_road_nodes nearby_roads with
  | Raises e => Some (Raises e)
  | Returns node_graph =>
      let point := shelter_point shelter_feature in
      let k := if scale shelter_feature =? -1 then 1%nat else 3%nat in
      match nearest_point node_graph point k with
      | Raises e => Some (Raises e)
      | Returns nearest_nodes =>
          let buffer_distance := 200 in
          match dijkstra union_class node_graph distance buffer_distance
                         nearest_nodes with
          | None => None
          | Some (Raises e) => Some (Raises e)
          | Some (Returns merge_searched_road) =>
              Some (Returns (add_buffered_polygons (fid shelter_feature)
                                                   merge_searched_road out))
          end
      end
  end.

End AreaDataGenerator.
Export AreaDataGenerator.

(** ** Vocabulary of the statements *)

(** The points of a line that are segment endpoints: all of them when the
    line has at least two points, none otherwise. *)
Definition line_points (line : list QgsPointXY) : list QgsPointXY :=
  match line with
  | _ :: _ :: _ => line
  | _ => []
  end.

(** Every coordinate that occurs as a segment endpoint in the features. *)
Definition segment_endpoints (roads : list QgsGeometry) : list QgsPointXY :=
  flat_map (fun road_geom =>
              match road_geom with
              | LineString line => line_points line
              | MultiLineString lines => flat_map line_points lines
              | EmptyGeometry | OtherGeometry => []
              end) roads.

(** The geometry is empty, a polyline or a multi-polyline. *)
Definition is_line_geometry (road_geom : QgsGeometry) : Prop :=
  road_geom <> OtherGeometry.

(** The invariant of the builder: the dictionary [vertex_map] and the vertex
    list of the graph are two views of one bijection. *)
Definition builder_inv (st : builder_state) : Prop :=
  vertex_id_counter st = vertexCount (builder st)
  /\ forall p id, vertex_map_get p (vertex_map st) = Some id
                  <-> nth_error (vertices (builder st)) id = Some p.

(** The list that stands for the heap is ascending. *)
Definition queue_sorted (queue : list entry) : Prop :=
  Sorted (fun a b => entry_leb a b = true) queue.

(** The number of vertices whose coordinate the search has not marked. *)
Definition unsearched (graph : QgsGraph) (searched : list coord) : nat :=
  length (filter (fun v => negb (py_in (PyTuple (xy v)) searched))
                 (vertices graph)).

(** The variant of the loop of [dijkstra]: the entries waiting in the queue,
    plus what the vertices not yet marked may still push. *)
Definition variant (graph : QgsGraph) (st : search_state) : nat :=
  (length (priority_queue st)
   + unsearched graph (searched_list st) * (2 * edgeCount graph))%nat.

(** The states of the loop of [dijkstra]: the initial one, and the state
    after an iteration that did not raise. *)
Inductive reachable (graph : QgsGraph) (max_distance buffer_distance : Z)
  (start_points : list QgsPointXY) : search_state -> Prop :=
| reachable_initial :
    reachable graph max_distance buffer_distance start_points
              (initial_state start_points)
| reachable_iteration st st' :
    reachable graph max_distance buffer_distance start_points st ->
    priority_queue st <> [] ->
    while_body graph max_distance buffer_distance st = Returns st' ->
    reachable graph max_distance buffer_distance start_points st'.

(** The width formula of the source,
    [buffer_distance * (max_distance - d) / max_distance]. *)
Definition buffer_width (buffer_distance max_distance d : Z) : Q :=
  (inject_Z (buffer_distance * (max_distance - d)) / inject_Z max_distance)%Q.

(** No edge at a start point can be walked within the budget. *)
Definition no_edge_within_budget (graph : QgsGraph)
  (start_points : list QgsPointXY) (max_distance : Z) : Prop :=
  forall start v j e,
    In start start_points ->
    findVertex graph start = Some v ->
    In j (outgoingEdges graph v ++ incomingEdges graph v) ->
    nth_error (edges graph) j = Some e ->
    max_distance < cost e.

(** ** Scenarios *)

(** The seed of the scenarios. *)
Definition seed : QgsPointXY := PointXY 0 0.

(** A straight road of 1000 m given as one polyline of two points, and the
    graph that the builder makes of it. *)
Definition straight_road : list QgsGeometry :=
  [LineString [PointXY 0 0; PointXY 1000 0]].

Definition straight_graph : QgsGraph :=
  Graph [PointXY 0 0; PointXY 1000 0] [GraphEdge 0 1 1000].

(** The same road as ten features of 100 m each, as one polyline with a
    vertex every 100 m, and the graph that the builder makes of either. *)
Definition split_road : list QgsGeometry :=
  map (fun i => LineString [PointXY (100 * i) 0; PointXY (100 * (i + 1)) 0])
      [0; 1; 2; 3; 4; 5; 6; 7; 8; 9].

Definition split_polyline : list QgsGeometry :=
  [LineString (map (fun i => PointXY (100 * i) 0)
                   [0; 1; 2; 3; 4; 5; 6; 7; 8; 9; 10])].

Definition split_graph : QgsGraph :=
  Graph (map (fun i => PointXY (100 * i) 0) [0; 1; 2; 3; 4; 5; 6; 7; 8; 9; 10])
        (map (fun i => GraphEdge i (S i) 100)
             [0; 1; 2; 3; 4; 5; 6; 7; 8; 9]%nat).

(** The [i]-th segment of the split road buffered at the tentative distance
    [d], for the budget 500 and the base width 200. *)
Definition split_buffer (i d : Z) : buffered_line :=
  BufferedLine (PointXY (100 * i) 0) (PointXY (100 * (i + 1)) 0)
               (buffer_width 200 500 d) d.

(** The state in which the search of the split road ends (see
    [split_road_search]). *)
Definition split_road_result : search_state :=
  SearchState
    [(500, 0); (400, 0); (300, 0); (200, 0); (100, 0); (0, 0)]
    [split_buffer 0 100;
     split_buffer 1 200; split_buffer 0 200;
     split_buffer 2 300; split_buffer 1 300;
     split_buffer 3 400; split_buffer 2 400;
     split_buffer 4 500; split_buffer 3 500]
    [].

(** The segment from [p] to [q] buffered at the tentative distance [d], for
    the budget 500 and the base width 200. *)
Definition road_buffer (p q : QgsPointXY) (d : Z) : buffered_line :=
  BufferedLine p q (buffer_width 200 500 d) d.

(** Two parallel roads 400 m apart, with a shelter half way between them. *)
Definition far_roads : list QgsGeometry :=
  [LineString [PointXY 0 0; PointXY 100 0];
   LineString [PointXY 0 400; PointXY 100 400]].

(** Two segments of 100 m in a row. *)
Definition two_segment_graph : QgsGraph :=
  Graph [PointXY 0 0; PointXY 100 0; PointXY 200 0]
        [GraphEdge 0 1 100; GraphEdge 1 2 100].

(** ** Vocabulary of the further properties *)

(** The number of segments of the features: a line of [n >= 1] points has
    [n - 1] of them. *)
Definition line_segments (line : list QgsPointXY) : nat := pred (length line).

Definition segment_count (roads : list QgsGeometry) : nat :=
  list_sum
    (map (fun road_geom =>
            match road_geom with
            | LineString line => line_segments line
            | MultiLineString lines => list_sum (map line_segments lines)
            | EmptyGeometry | OtherGeometry => 0%nat
            end) roads).

(** Every edge of the builder's graph joins two of its vertices and weighs
    the Euclidean length between their points. *)
Definition edges_measured (g : QgsGraph) : Prop :=
  forall e, In e (edges g) ->
    exists p1 p2,
      nth_error (vertices g) (fromVertex e) = Some p1
      /\ nth_error (vertices g) (toVertex e) = Some p2
      /\ cost e = euclid p1 p2.






(** Runs of the loop of [dijkstra]: iterations that do not raise, one after
    the other. *)
Inductive steps (graph : QgsGraph) (max_distance buffer_distance : Z)
  : search_state -> search_state -> Prop :=
| steps_here st : steps graph max_distance buffer_distance st st
| steps_iteration st st1 st2 :
    priority_queue st <> [] ->
    while_body graph max_distance buffer_distance st = Returns st1 ->
    steps graph max_distance buffer_distance st1 st2 ->
    steps graph max_distance buffer_distance st st2.

(** The edge [e] of the graph goes from the vertex at [s] to the vertex at
    [t]. *)
Definition edge_between (graph : QgsGraph) (e : QgsGraphEdge)
  (s t : QgsPointXY) : Prop :=
  In e (edges graph)
  /\ nth_error (vertices graph) (fromVertex e) = Some s
  /\ nth_error (vertices graph) (toVertex e) = Some t.

(** The coordinate [c] can be walked to from a start point, along edges
    taken in either direction, over the distance [d], without the cumulative
    distance ever exceeding the budget. *)
Inductive walkable (graph : QgsGraph) (start_points : list QgsPointXY)
  (max_distance : Z) : coord -> Z -> Prop :=
| walkable_start start :
    In start start_points ->
    walkable graph start_points max_distance (xy start) 0
| walkable_edge c d e s t c' :
    walkable graph start_points max_distance c d ->
    edge_between graph e s t ->
    (c = xy s /\ c' = xy t) \/ (c = xy t /\ c' = xy s) ->
    d + cost e <= max_distance ->
    walkable graph start_points max_distance c' (d + cost e).

(** During the run that ends in [st], the coordinate [c] was popped at the
    distance [d] while unmarked: the iteration that marks it. *)
Definition marked_at (graph : QgsGraph) (max_distance buffer_distance : Z)
  (start_points : list QgsPointXY) (c : coord) (d : Z) (st : search_state)
  : Prop :=
  exists sa sb queue,
    reachable graph max_distance buffer_distance start_points sa
    /\ priority_queue sa = (d, c) :: queue
    /\ py_in (PyTuple c) (searched_list sa) = false
    /\ while_body graph max_distance buffer_distance sa = Returns sb
    /\ steps graph max_distance buffer_distance sb st.

(** ** The loop of [create_shelter_area] over the shelters *)

(** The geometry of a shelter feature: a point, or a geometry whose
    [type()] is not [PointGeometry]. *)
Inductive shelter_geometry : Set :=
| PointGeometry (p : QgsPointXY)
| OtherShelterGeometry.

(** A feature of the layer [shelters]: the attributes [fid] and [scale], the
    geometry, and the roads that the request for the bounding box of its
    buffer returns. *)
Record shelter_feature : Set :=
  ShelterFeature { shelter_fid : Z;
                   shelter_geom : shelter_geometry;
                   shelter_scale : Z;
                   shelter_roads : list QgsGeometry }.

(** What ends the loop early: an exception of the methods it calls, or the
    use of the local variable [point] before any assignment. *)
Inductive loop_exn : Set :=
| Propagated (e : exn)
| UnboundLocalError.

Inductive loop_result : Set :=
| LoopReturns (out : output)
| LoopRaises (e : loop_exn).

(** [for shelter_feature in shelters_layer.getFeatures(): ...], from the
    [i]-th shelter on.  [point] is the local variable of that name: it is
    assigned when the geometry is a point and left as it is otherwise (the
    other branch only logs a warning).  The attributes [fid] and [scale]
    are taken to be present, as [create_shelter] writes them.
    [check_canceled i] is the answer of the callback in the [i]-th
    iteration; a true answer is the [break].  (The counter [shelter_count]
    only paces [processEvents]; it is left out.)  [None]: the search did not
    finish within its bound. *)
Fixpoint shelter_loop (union_class : list buffered_line -> geometry_class)
  (distance : Z) (check_canceled : nat -> bool) (i : nat)
  (shelters : list shelter_feature) (point : option QgsPointXY)
  (out : output) : option loop_result :=
  match shelters with
  | [] => Some (LoopReturns out)
  | shelter :: rest =>
      match extract_road_nodes (shelter_roads shelter) with
      | Raises e => Some (LoopRaises (Propagated e))
      | Returns node_graph =>
          let point :=
            match shelter_geom shelter with
            | PointGeometry p => Some p
            | OtherShelterGeometry => point
            end in
          let k := if shelter_scale shelter =? -1 then 1%nat else 3%nat in
          match point with
          | None => Some (LoopRaises UnboundLocalError)
          | Some pt =>
              match nearest_point node_graph pt k with
              | Raises e => Some (LoopRaises (Propagated e))
              | Returns nearest_nodes =>
                  let buffer_distance := 200 in
                  match dijkstra union_class node_graph distance
                                 buffer_distance nearest_nodes with
                  | None => None
                  | Some (Raises e) => Some (LoopRaises (Propagated e))
                  | Some (Returns merge_searched_road) =>
                      if check_canceled i then Some (LoopReturns out)
                      else
                        shelter_loop union_class distance check_canceled
                                     (S i) rest point
                                     (add_buffered_polygons
                                        (shelter_fid shelter)
                                        merge_searched_road out)
                  end
              end
          end
      end
  end.

(** The shelters with every geometry that is not a point replaced by the
    last point before it, when there is one. *)
Fixpoint carry_points (last : option QgsPointXY)
  (shelters : list shelter_feature) : list shelter_feature :=
  match shelters with
  | [] => []
  | shelter :: rest =>
      match shelter_geom shelter, last with
      | PointGeometry p, _ => shelter :: carry_points (Some p) rest
      | OtherShelterGeometry, Some p =>
          ShelterFeature (shelter_fid shelter) (PointGeometry p)
                         (shelter_scale shelter) (shelter_roads shelter)
          :: carry_points last rest
      | OtherShelterGeometry, None => shelter :: carry_points None rest
      end
  end.

(** ** [create_area_data] *)

(** The methods that [create_area_data] calls. *)
Inductive stage : Set :=
| create_station_coverage_area
| create_bus_stop_coverage_area
| create_shelter
| create_shelter_area
| create_urban_function_induction_area
| create_hypothetical_residential_areas
| validate_induction_areas
| create_land_use_maps
| create_change_maps
| create_urbun_planning_area
| create_land_use_area
| create_hazard_area_planned_scale
| create_hazard_area_max_scale
| create_hazard_area_storm_surge
| create_hazard_area_tsunami
| create_hazard_area_landslide
| create_hazard_area_floodplain
| update_induction_area.

(** The methods of the mode before the change, in the order in which the
    body of [create_area_data] names them. *)
Definition before_change_stages : list stage :=
  [create_station_coverage_area; create_bus_stop_coverage_area;
   create_shelter; create_shelter_area;
   create_urban_function_induction_area;
   create_hypothetical_residential_areas; validate_induction_areas;
   create_land_use_maps; create_change_maps; create_urbun_planning_area;
   create_land_use_area; create_hazard_area_planned_scale;
   create_hazard_area_max_scale; create_hazard_area_storm_surge;
   create_hazard_area_tsunami; create_hazard_area_landslide;
   create_hazard_area_floodplain].

(** [create_area_data]: the methods it calls, in order, when none of them
    raises.  [check_canceled n] is the answer of the callback to the
    [n]-th question, counted from 0; a true answer is the [return]. *)
Definition create_area_data (is_after_change : bool)
  (check_canceled : nat -> bool) : list stage :=
  if is_after_change then [update_induction_area]
  else
    create_station_coverage_area ::
    (if check_canceled 0%nat then [] else
    create_bus_stop_coverage_area ::
    (if check_canceled 1%nat then [] else
    create_shelter ::
    (if check_canceled 2%nat then [] else
    create_shelter_area ::
    (if check_canceled 3%nat then [] else
    create_urban_function_induction_area ::
    (if check_canceled 4%nat then [] else
    create_hypothetical_residential_areas ::
    (if check_canceled 5%nat then [] else
    validate_induction_areas ::
    (if check_canceled 6%nat then [] else
    create_land_use_maps ::
    (if check_canceled 7%nat then [] else
    create_change_maps ::
    (if check_canceled 8%nat then [] else
    create_urbun_planning_area ::
    (if check_canceled 9%nat then [] else
    create_land_use_area ::
    (if check_canceled 10%nat then [] else
    create_hazard_area_planned_scale ::
    (if check_canceled 11%nat then [] else
    create_hazard_area_max_scale ::
    (if check_canceled 12%nat then [] else
    create_hazard_area_storm_surge ::
    (if check_canceled 13%nat then [] else
    create_hazard_area_tsunami ::
    (if check_canceled 14%nat then [] else
    create_hazard_area_landslide ::
    (if check_canceled 15%nat then [] else
    [create_hazard_area_floodplain])))))))))))))))).

(** ** [__detect_encoding] *)

Delimit Scope string_scope with string.

(** [__detect_encoding], for the two facts it reads from outside: whether
    the [.dbf] file exists, and the entry ['encoding'] of the result of
    [chardet.detect], which may be [None]. *)
Definition detect_encoding (dbf_exists : bool)
  (detected : option String.string) : String.string :=
  if dbf_exists then
    let encoding :=
      match detected with
      | None => "UTF-8"%string
      | Some enc => if String.eqb enc ""%string then "UTF-8"%string else enc
      end in
    let encoding :=
      if String.eqb encoding "MacRoman"%string then "SHIFT_JIS"%string
      else encoding in
    let encoding :=
      if String.eqb encoding "Windows-1254"%string then "SHIFT_JIS"%string
      else encoding in
    let encoding :=
      if String.eqb encoding "Windows-1252"%string then "SHIFT_JIS"%string
      else encoding in
    if String.eqb encoding ""%string then "SHIFT_JIS"%string else encoding
  else "UTF-8"%string.

(** [l1] is [l2] with some elements left out. *)
Inductive subsequence {A : Type} : list A -> list A -> Prop :=
| subsequence_nil : subsequence [] []
| subsequence_keep (a : A) (l1 l2 : list A) :
    subsequence l1 l2 -> subsequence (a :: l1) (a :: l2)
| subsequence_skip (a : A) (l1 l2 : list A) :
    subsequence l1 l2 -> subsequence l1 (a :: l2).

(** Three shelters on the two parallel roads: a point, a geometry that is
    not a point, and a point again. *)
Definition three_shelters : list shelter_feature :=
  [ShelterFeature 7 (PointGeometry (PointXY 50 200)) 0 far_roads;
   ShelterFeature 8 OtherShelterGeometry (-1) far_roads;
   ShelterFeature 9 (PointGeometry (PointXY 0 0)) 0 far_roads].

(** What the loop over [three_shelters] leaves in the layer when every
    union is a polygon and nobody cancels. *)
Definition three_shelters_output : output :=
  Eval vm_compute in
    match shelter_loop (fun _ => Polygon) 500 (fun _ => false) 0
                       three_shelters None (Output [] []) with
    | Some (LoopReturns out) => out
    | _ => Output [] []
    end.

(** The same when the callback answers true in the second iteration. *)
Definition one_shelter_output : output :=
  Eval vm_compute in
    match shelter_loop (fun _ => Polygon) 500 (fun _ => false) 0
                       (firstn 1 three_shelters) None (Output [] []) with
    | Some (LoopReturns out) => out
    | _ => Output [] []
    end.

(** * Properties *)

(** ** Equality of coordinates and membership *)

Lemma coord_eqb_eq (a b : coord) : coord_eqb a b = true <-> a = b.
Proof.
  destruct a as [a1 a2], b as [b1 b2]; unfold coord_eqb; simpl.
  rewrite andb_true_iff, !Z.eqb_eq.
  split; [intros [-> ->]; reflexivity | intros H; inversion H; auto].
Qed.

Lemma point_eqb_eq (p q : QgsPointXY) : point_eqb p q = true <-> p = q.
Proof.
  unfold point_eqb. rewrite coord_eqb_eq.
  destruct p, q; unfold xy; simpl.
  split; intros H; inversion H; reflexivity.
Qed.

Lemma point_eqb_refl (p : QgsPointXY) : point_eqb p p = true.
Proof. apply point_eqb_eq; reflexivity. Qed.

Lemma point_eqb_neq (p q : QgsPointXY) : point_eqb p q = false <-> p <> q.
Proof.
  rewrite <- point_eqb_eq. destruct (point_eqb p q); split; congruence.
Qed.

Lemma point_eq_dec (p q : QgsPointXY) : {p = q} + {p <> q}.
Proof.
  destruct (point_eqb p q) eqn:E.
  - left; apply point_eqb_eq; exact E.
  - right; apply point_eqb_neq; exact E.
Defined.

Lemma point_of_xy (p : QgsPointXY) : PointXY (fst (xy p)) (snd (xy p)) = p.
Proof. destruct p; reflexivity. Qed.

(** A point object is never found in a set of tuples. *)
Lemma py_in_point (p : QgsPointXY) (s : list coord) :
  py_in (PyPoint p) s = false.
Proof. induction s as [|c s IH]; simpl; auto. Qed.

Lemma py_in_tuple (c : coord) (s : list coord) :
  py_in (PyTuple c) s = true <-> In c s.
Proof.
  unfold py_in. rewrite existsb_exists. simpl. split.
  - intros [c' [Hin Heq]]. apply coord_eqb_eq in Heq. subst; assumption.
  - intros Hin. exists c. split; [assumption | apply coord_eqb_eq; reflexivity].
Qed.

(** The guard of the push therefore reduces to the budget test. *)
Lemma push_guard_budget (max_distance : Z) (s : list coord) (p : QgsPointXY)
  (d : Z) :
  push_guard max_distance s p d = (d <=? max_distance).
Proof. unfold push_guard. rewrite py_in_point. reflexivity. Qed.

(** ** The graph builder *)

Section Builder.

Lemma vertex_map_item_get p m id :
  vertex_map_get p m = Some id -> vertex_map_item p m = Returns id.
Proof. unfold vertex_map_item; intros ->; reflexivity. Qed.

Lemma nth_error_snoc {A} (l : list A) (a b : A) (i : nat) :
  nth_error (l ++ [a]) i = Some b <->
  nth_error l i = Some b \/ (i = length l /\ a = b).
Proof.
  destruct (Nat.lt_ge_cases i (length l)) as [Hlt | Hge].
  - rewrite nth_error_app1 by assumption.
    split; [auto | intros [H | [H _]]; [assumption | lia]].
  - rewrite nth_error_app2 by assumption.
    assert (Hnone : nth_error l i = None) by (apply nth_error_None; lia).
    rewrite Hnone.
    destruct (i - length l)%nat as [|n] eqn:E; simpl.
    + split.
      * intros H; inversion H; right; split; [lia | reflexivity].
      * intros [H | [_ ->]]; [discriminate | reflexivity].
    + destruct n; simpl; split; try discriminate;
        intros [H | [H _]]; try discriminate; lia.
Qed.

Lemma ensure_vertex_inv st p :
  builder_inv st -> builder_inv (ensure_vertex st p).
Proof.
  intros [Hc Hm]. unfold ensure_vertex.
  destruct (vertex_map_get p (vertex_map st)) as [id|] eqn:Hget.
  - split; assumption.
  - split; simpl.
    + unfold vertexCount in *; simpl. rewrite length_app; simpl. lia.
    + intros q id. rewrite nth_error_snoc.
      destruct (point_eqb p q) eqn:Hpq.
      * apply point_eqb_eq in Hpq; subst q. split.
        -- intros H; inversion H; subst. right. split; [exact Hc | reflexivity].
        -- intros [H | [H _]].
           ++ apply Hm in H. congruence.
           ++ unfold vertexCount in Hc. congruence.
      * rewrite Hm. apply point_eqb_neq in Hpq.
        split; [auto | intros [H | [_ H]]; [assumption | contradiction]].
Qed.

Lemma ensure_vertex_edges st p :
  edges (builder (ensure_vertex st p)) = edges (builder st).
Proof.
  unfold ensure_vertex.
  destruct (vertex_map_get p (vertex_map st)); reflexivity.
Qed.

Lemma ensure_vertex_get st p :
  exists id, vertex_map_get p (vertex_map (ensure_vertex st p)) = Some id.
Proof.
  unfold ensure_vertex.
  destruct (vertex_map_get p (vertex_map st)) as [id|] eqn:Hget.
  - exists id; assumption.
  - simpl. rewrite point_eqb_refl. eexists; reflexivity.
Qed.

Lemma ensure_vertex_keeps st p q id :
  builder_inv st ->
  vertex_map_get q (vertex_map st) = Some id ->
  vertex_map_get q (vertex_map (ensure_vertex st p)) = Some id.
Proof.
  intros Hinv Hq. unfold ensure_vertex.
  destruct (vertex_map_get p (vertex_map st)) as [id'|] eqn:Hget;
    [assumption|].
  simpl. destruct (point_eqb p q) eqn:Hpq; [|assumption].
  apply point_eqb_eq in Hpq; subst; congruence.
Qed.

Lemma ensure_vertex_vertices st p q :
  builder_inv st ->
  In q (vertices (builder (ensure_vertex st p)))
  <-> In q (vertices (builder st)) \/ q = p.
Proof.
  intros [Hc Hm]. unfold ensure_vertex.
  destruct (vertex_map_get p (vertex_map st)) as [id|] eqn:Hget.
  - split; [auto | intros [H | ->]; [assumption|]].
    apply Hm in Hget. eapply nth_error_In; eassumption.
  - simpl. rewrite in_app_iff; simpl. intuition congruence.
Qed.

Lemma add_segment_spec st p1 p2 :
  builder_inv st ->
  exists st', add_segment st p1 p2 = Returns st'
              /\ builder_inv st'
              /\ (forall q, In q (vertices (builder st'))
                            <-> In q (vertices (builder st)) \/ q = p1 \/ q = p2)
              /\ exists id1 id2,
                  edges (builder st')
                  = edges (builder st) ++ [GraphEdge id1 id2 (euclid p1 p2)].
Proof.
  intros Hinv. unfold add_segment.
  pose proof (ensure_vertex_inv st p1 Hinv) as Hinv1.
  pose proof (ensure_vertex_inv _ p2 Hinv1) as Hinv2.
  destruct (ensure_vertex_get st p1) as [id1 H1].
  destruct (ensure_vertex_get (ensure_vertex st p1) p2) as [id2 H2].
  pose proof (ensure_vertex_keeps _ p2 _ _ Hinv1 H1) as H1'.
  rewrite (vertex_map_item_get _ _ _ H1'), (vertex_map_item_get _ _ _ H2).
  simpl. eexists; split; [reflexivity|]. simpl.
  repeat split.
  - apply Hinv2.
  - apply Hinv2.
  - apply Hinv2.
  - rewrite (ensure_vertex_vertices _ p2 q Hinv1),
      (ensure_vertex_vertices _ p1 q Hinv). tauto.
  - rewrite (ensure_vertex_vertices _ p2 q Hinv1),
      (ensure_vertex_vertices _ p1 q Hinv). tauto.
  - exists id1, id2. rewrite !ensure_vertex_edges. reflexivity.
Qed.

End Builder.

Section BuilderLoops.

Lemma add_line_spec line : forall st,
  builder_inv st ->
  exists st', add_line st line = Returns st'
              /\ builder_inv st'
              /\ forall q, In q (vertices (builder st'))
                           <-> In q (vertices (builder st))
                               \/ In q (line_points line).
Proof.
  induction line as [|p1 rest IH]; intros st Hinv.
  - exists st. simpl. split; [reflexivity | split; [exact Hinv | intros q; tauto]].
  - destruct rest as [|p2 rest'].
    + exists st. simpl. split; [reflexivity | split; [exact Hinv | intros q; tauto]].
    + destruct (add_segment_spec st p1 p2 Hinv)
        as (st1 & Hseg & Hinv1 & Hv1 & _).
      destruct (IH st1 Hinv1) as (st2 & Hline & Hinv2 & Hv2).
      exists st2. split; [|split; [exact Hinv2|]].
      * change (add_line st (p1 :: p2 :: rest'))
          with (st' <- add_segment st p1 p2 ;; add_line st' (p2 :: rest')).
        rewrite Hseg. exact Hline.
      * intros q. rewrite Hv2, Hv1.
        destruct rest' as [|p3 rest'']; simpl; intuition.
Qed.

Lemma add_lines_spec lines : forall st,
  builder_inv st ->
  exists st', for_each add_line lines st = Returns st'
              /\ builder_inv st'
              /\ forall q, In q (vertices (builder st'))
                           <-> In q (vertices (builder st))
                               \/ In q (flat_map line_points lines).
Proof.
  induction lines as [|line lines IH]; intros st Hinv.
  - exists st. simpl. split; [reflexivity | split; [exact Hinv | intros q; tauto]].
  - destruct (add_line_spec line st Hinv) as (st1 & H1 & Hinv1 & Hv1).
    destruct (IH st1 Hinv1) as (st2 & H2 & Hinv2 & Hv2).
    exists st2. simpl. rewrite H1. simpl.
    split; [exact H2 | split; [exact Hinv2|]].
    intros q. rewrite Hv2, Hv1, in_app_iff. tauto.
Qed.

Lemma add_features_spec roads : forall st,
  Forall is_line_geometry roads ->
  builder_inv st ->
  exists st', for_each add_feature roads st = Returns st'
              /\ builder_inv st'
              /\ forall q, In q (vertices (builder st'))
                           <-> In q (vertices (builder st))
                               \/ In q (segment_endpoints roads).
Proof.
  induction roads as [|road roads IH]; intros st Hall Hinv.
  - exists st. simpl. split; [reflexivity | split; [exact Hinv | intros q; tauto]].
  - inversion Hall as [|? ? Hroad Hrest]; subst.
    assert (Hstep : exists st1,
               add_feature st road = Returns st1 /\ builder_inv st1
               /\ forall q, In q (vertices (builder st1))
                            <-> In q (vertices (builder st))
                                \/ In q (segment_endpoints [road])).
    { destruct road as [|line|lines|]; simpl.
      - exists st. split; [reflexivity | split; [exact Hinv | intros q; tauto]].
      - destruct (add_line_spec line st Hinv) as (st1 & H1 & Hinv1 & Hv1).
        exists st1. rewrite H1. simpl.
        split; [reflexivity | split; [exact Hinv1|]].
        intros q. rewrite app_nil_r. apply Hv1.
      - destruct (add_lines_spec lines st Hinv) as (st1 & H1 & Hinv1 & Hv1).
        exists st1. rewrite app_nil_r. split; [exact H1|].
        split; [exact Hinv1 | exact Hv1].
      - exfalso. apply Hroad. reflexivity. }
    destruct Hstep as (st1 & H1 & Hinv1 & Hv1).
    destruct (IH st1 Hrest Hinv1) as (st2 & H2 & Hinv2 & Hv2).
    exists st2. simpl for_each. rewrite H1. simpl bind.
    split; [exact H2 | split; [exact Hinv2|]].
    intros q. rewrite Hv2, Hv1.
    assert (E : segment_endpoints (road :: roads)
                = segment_endpoints [road] ++ segment_endpoints roads)
      by (simpl; rewrite app_nil_r; reflexivity).
    rewrite E, in_app_iff. tauto.
Qed.

Lemma builder_inv_empty : builder_inv (BuilderState empty_graph [] 0).
Proof.
  split; [reflexivity|]. intros p id; simpl.
  split; [discriminate | destruct id; discriminate].
Qed.

Lemma builder_inv_NoDup st : builder_inv st -> NoDup (vertices (builder st)).
Proof.
  intros [_ Hm]. apply NoDup_nth_error. intros i j Hi Hij.
  destruct (nth_error (vertices (builder st)) i) as [p|] eqn:Hp.
  - symmetry in Hij. apply Hm in Hp, Hij. congruence.
  - apply nth_error_None in Hp. lia.
Qed.

End BuilderLoops.

(** C7.  Vertex de-duplication: when the features are (multi-)polylines or
    empty, the builder returns a graph in which every coordinate that occurs
    as a segment endpoint is the point of exactly one vertex id, and the
    graph has no other vertices.  Two polylines sharing an endpoint are the
    instance in which that coordinate occurs in both lines. *)
Theorem extract_road_nodes_one_vertex_per_coordinate (roads : list QgsGeometry) :
  Forall is_line_geometry roads ->
  exists g,
    extract_road_nodes roads = Returns g
    /\ (forall p, In p (vertices g) <-> In p (segment_endpoints roads))
    /\ forall p, In p (segment_endpoints roads) ->
         count_occ point_eq_dec (vertices g) p = 1%nat
         /\ exists id, nth_error (vertices g) id = Some p
                       /\ forall id', nth_error (vertices g) id' = Some p
                                      -> id' = id.
Proof.
  intros Hall.
  destruct (add_features_spec roads _ Hall builder_inv_empty)
    as (st & Hrun & Hinv & Hv).
  exists (builder st). unfold extract_road_nodes. rewrite Hrun. simpl.
  split; [reflexivity|].
  assert (Hset : forall p, In p (vertices (builder st))
                           <-> In p (segment_endpoints roads)).
  { intros p. rewrite Hv. simpl. tauto. }
  split; [exact Hset|].
  intros p Hp. apply Hset in Hp. split.
  - apply NoDup_count_occ'; [apply builder_inv_NoDup; exact Hinv | exact Hp].
  - destruct (In_nth_error _ _ Hp) as [id Hid].
    exists id. split; [exact Hid|].
    intros id' Hid'. destruct Hinv as [_ Hm].
    apply Hm in Hid, Hid'. congruence.
Qed.

(** The instance of the claim: two polylines that meet at [(100, 0)]. *)
Lemma extract_road_nodes_one_vertex_per_coordinate_witness :
  exists g,
    extract_road_nodes [LineString [PointXY 0 0; PointXY 100 0];
                        LineString [PointXY 100 0; PointXY 100 50]]
    = Returns g
    /\ vertices g = [PointXY 0 0; PointXY 100 0; PointXY 100 50]
    /\ count_occ point_eq_dec (vertices g) (PointXY 100 0) = 1%nat.
Proof.
  destruct (extract_road_nodes_one_vertex_per_coordinate
              [LineString [PointXY 0 0; PointXY 100 0];
               LineString [PointXY 100 0; PointXY 100 50]])
    as (g & Hg & _ & Hone).
  - repeat constructor; discriminate.
  - exists g. split; [exact Hg|].
    split.
    + vm_compute in Hg. inversion Hg. reflexivity.
    + apply Hone. simpl. auto.
Defined.

(** C8.  Weight correctness: the polyline from [(0,0)] to [(3,4)] gives a
    graph with exactly one edge, between its two vertices, whose cost is 5,
    the Euclidean length of the segment ([5 * 5 = 3 * 3 + 4 * 4]). *)
Theorem extract_road_nodes_weight_3_4_5 :
  extract_road_nodes [LineString [PointXY 0 0; PointXY 3 4]]
  = Returns (Graph [PointXY 0 0; PointXY 3 4] [GraphEdge 0 1 5])
  /\ euclid (PointXY 0 0) (PointXY 3 4) = 5
  /\ 5 * 5 = (3 - 0) * (3 - 0) + (4 - 0) * (4 - 0).
Proof. repeat split. Qed.

(** ** The nearest-node lookup *)

Section Nearest.

Lemma float_eqb_refl a : float_eqb a a = true.
Proof. destruct a; simpl; [apply Z.eqb_refl | reflexivity]. Qed.

Let keep_max (m v : pyfloat) : pyfloat := if float_ltb m v then v else m.

Lemma fold_max_In l : forall m,
  fold_left keep_max l m = m \/ In (fold_left keep_max l m) l.
Proof.
  induction l as [|v l IH]; intros m; simpl; [left; reflexivity|].
  destruct (IH (keep_max m v)) as [H | H]; [|right; right; exact H].
  rewrite H. unfold keep_max. destruct (float_ltb m v); auto.
Qed.

Lemma fold_max_Infinity l : forall m,
  m = Infinity \/ In Infinity l -> fold_left keep_max l m = Infinity.
Proof.
  induction l as [|v l IH]; intros m H; simpl.
  - destruct H as [H | []]; exact H.
  - apply IH. destruct H as [-> | [-> | H]].
    + left. unfold keep_max. reflexivity.
    + left. unfold keep_max. destruct m; reflexivity.
    + right; exact H.
Qed.

Lemma py_max_In l :
  l <> [] -> exists m, py_max l = Returns m /\ In m l.
Proof.
  destruct l as [|a t]; [congruence|]. intros _.
  eexists; split; [reflexivity|].
  destruct (fold_max_In t a) as [H | H]; fold keep_max.
  - left. symmetry. exact H.
  - right. exact H.
Qed.

Lemma py_max_Infinity l : In Infinity l -> py_max l = Returns Infinity.
Proof.
  destruct l as [|a t]; [intros []|]. intros H. simpl. f_equal.
  apply (fold_max_Infinity t a). destruct H as [-> | H]; auto.
Qed.

Lemma py_index_In v l :
  In v l -> exists i, py_index v l = Returns i /\ (i < length l)%nat.
Proof.
  induction l as [|a t IH]; [intros []|]. intros H. simpl.
  destruct (float_eqb a v) eqn:E.
  - exists 0%nat. split; [reflexivity | lia].
  - destruct H as [-> | H]; [rewrite float_eqb_refl in E; discriminate|].
    destruct (IH H) as (i & Hi & Hlt). exists (S i). rewrite Hi. simpl.
    split; [reflexivity | lia].
Qed.

Lemma py_index_first ds rest :
  py_index Infinity (map Finite ds ++ Infinity :: rest)
  = Returns (length ds).
Proof.
  induction ds as [|d ds IH]; simpl; [reflexivity|].
  rewrite IH. reflexivity.
Qed.

Lemma set_item_lt {A} (v : A) l : forall i,
  (i < length l)%nat ->
  exists l', set_item l i v = Returns l'
             /\ length l' = length l
             /\ forall q, In q l' -> q = v \/ In q l.
Proof.
  induction l as [|a t IH]; intros i Hi; simpl in Hi; [lia|].
  destruct i as [|i]; simpl.
  - exists (v :: t). repeat split; simpl; intuition.
  - destruct (IH i) as (t' & Ht & Hlen & Hin); [lia|].
    rewrite Ht. simpl. exists (a :: t').
    split; [reflexivity | split; [simpl; lia|]].
    intros q [-> | H]; simpl; [auto|]. destruct (Hin q H); auto.
Qed.

Lemma set_item_middle {A} (v a : A) pre post :
  set_item (pre ++ a :: post) (length pre) v = Returns (pre ++ v :: post).
Proof.
  induction pre as [|b pre IH]; simpl; [reflexivity|].
  rewrite IH. reflexivity.
Qed.

Variable point : QgsPointXY.

(** One visit keeps the two lists at their length and puts nothing but the
    visited vertex into the points. *)
Lemma nearest_visit_spec nearest nearest_points node_point :
  nearest <> [] ->
  length nearest_points = length nearest ->
  exists nearest' nearest_points',
    nearest_visit point (nearest, nearest_points) node_point
    = Returns (nearest', nearest_points')
    /\ length nearest' = length nearest
    /\ length nearest_points' = length nearest
    /\ forall q, In q nearest_points' -> q = node_point \/ In q nearest_points.
Proof.
  intros Hne Hlen. unfold nearest_visit.
  destruct (py_max_In nearest Hne) as (m & Hm & Hin). rewrite Hm. cbn [bind].
  destruct (float_ltb (Finite (calculate_meter (xy point) (xy node_point))) m).
  - destruct (py_index_In m nearest Hin) as (i & Hi & Hlt).
    rewrite Hi. cbn [bind].
    destruct (set_item_lt
                (Finite (calculate_meter (xy point) (xy node_point)))
                nearest i Hlt) as (n' & Hn' & Hlen' & _).
    rewrite Hn'. cbn [bind].
    destruct (set_item_lt node_point nearest_points i) as (p' & Hp' & Hlp & Hq);
      [lia|].
    rewrite Hp'. cbn [bind]. exists n', p'.
    repeat split; [exact Hlen' | lia | exact Hq].
  - exists nearest, nearest_points. repeat split; auto.
Qed.

Lemma nearest_scan_spec vs : forall nearest nearest_points,
  nearest <> [] ->
  length nearest_points = length nearest ->
  exists nearest' nearest_points',
    for_each (nearest_visit point) vs (nearest, nearest_points)
    = Returns (nearest', nearest_points')
    /\ length nearest_points' = length nearest
    /\ forall q, In q nearest_points' -> In q vs \/ In q nearest_points.
Proof.
  induction vs as [|v vs IH]; intros nearest nearest_points Hne Hlen.
  - exists nearest, nearest_points. simpl. auto.
  - destruct (nearest_visit_spec nearest nearest_points v Hne Hlen)
      as (n1 & p1 & H1 & Hl1 & Hlp1 & Hq1).
    destruct (IH n1 p1) as (n2 & p2 & H2 & Hl2 & Hq2).
    + intros ->. destruct nearest; [congruence | discriminate].
    + congruence.
    + exists n2, p2. cbn [for_each]. rewrite H1. cbn [bind].
      split; [exact H2 | split; [congruence|]].
      intros q Hq. destruct (Hq2 q Hq) as [H | H]; [left; right; exact H|].
      destruct (Hq1 q H) as [-> | H']; [left; left; reflexivity | auto].
Qed.

(** While free slots remain, the vertices fill them from the left. *)
Lemma nearest_scan_fill vs : forall ds pre j,
  length ds = length pre ->
  (length vs <= j)%nat ->
  exists ds',
    for_each (nearest_visit point) vs
             (map Finite ds ++ repeat Infinity j, pre ++ repeat point j)
    = Returns (map Finite ds' ++ repeat Infinity (j - length vs),
               (pre ++ vs) ++ repeat point (j - length vs)).
Proof.
  induction vs as [|v vs IH]; intros ds pre j Hlen Hj.
  - exists ds. simpl. rewrite Nat.sub_0_r, app_nil_r. reflexivity.
  - simpl in Hj. destruct j as [|j]; [lia|].
    cbn [for_each repeat]. unfold nearest_visit at 1.
    rewrite py_max_Infinity by (apply in_or_app; right; left; reflexivity).
    cbn [bind float_ltb]. rewrite py_index_first. cbn [bind].
    replace (length ds) with (length (map Finite ds)) by apply length_map.
    rewrite set_item_middle. cbn [bind].
    rewrite length_map, Hlen, set_item_middle. cbn [bind].
    destruct (IH (ds ++ [calculate_meter (xy point) (xy v)]) (pre ++ [v]) j)
      as (ds' & Hds').
    + rewrite !length_app. simpl. lia.
    + lia.
    + exists ds'. rewrite map_app in Hds'. simpl in Hds'.
      rewrite <- !app_assoc in Hds'. simpl in Hds'.
      rewrite <- !app_assoc. simpl. exact Hds'.
Qed.

End Nearest.

(** C9.  Seed degradation: for [k >= 1] the lookup returns, without raising,
    a list of exactly [k] points, each the query point or a vertex of the
    graph; when the graph has fewer than [k] vertices the vertices fill the
    first slots and every other slot still holds the query point; with one
    vertex and [k = 3], at least two of the three are the query point. *)
Theorem nearest_point_seed_degradation (g : QgsGraph) (point : QgsPointXY)
  (k : nat) :
  (1 <= k)%nat ->
  exists l,
    nearest_point g point k = Returns l
    /\ length l = k
    /\ Forall (fun q => q = point \/ In q (vertices g)) l
    /\ ((vertexCount g < k)%nat ->
        l = vertices g ++ repeat point (k - vertexCount g))
    /\ (vertexCount g = 1%nat -> k = 3%nat ->
        (2 <= count_occ point_eq_dec l point)%nat).
Proof.
  intros Hk. unfold nearest_point.
  destruct (nearest_scan_spec point (vertices g) (repeat Infinity k)
                              (repeat point k))
    as (n' & l & Hrun & Hlen & Hin).
  { destruct k; [lia | discriminate]. }
  { rewrite !repeat_length. reflexivity. }
  exists l. rewrite Hrun. simpl.
  assert (Hfill : (vertexCount g < k)%nat ->
                  l = vertices g ++ repeat point (k - vertexCount g)).
  { intros Hlt.
    destruct (nearest_scan_fill point (vertices g) [] [] k eq_refl)
      as (ds' & Hfill); [unfold vertexCount in Hlt; lia|].
    simpl in Hfill. rewrite Hfill in Hrun. inversion Hrun. reflexivity. }
  split; [reflexivity|].
  split; [rewrite Hlen, repeat_length; reflexivity|].
  split; [|split; [exact Hfill|]].
  - apply Forall_forall. intros q Hq.
    destruct (Hin q Hq) as [H | H]; [right; exact H|].
    left. apply repeat_spec in H. exact H.
  - intros H1 H3. rewrite Hfill by lia. rewrite H1, H3.
    rewrite count_occ_app, count_occ_repeat_eq by reflexivity.
    apply Nat.le_trans with (3 - 1)%nat; [apply Nat.le_refl|].
    apply Nat.le_add_l.
Qed.

(** A graph with the single vertex [(5, 5)], the query point [(0, 0)],
    [k = 3]. *)
Lemma nearest_point_seed_degradation_witness :
  exists l,
    nearest_point (Graph [PointXY 5 5] []) (PointXY 0 0) 3 = Returns l
    /\ l = [PointXY 5 5; PointXY 0 0; PointXY 0 0]
    /\ (2 <= count_occ point_eq_dec l (PointXY 0 0))%nat.
Proof.
  destruct (nearest_point_seed_degradation
              (Graph [PointXY 5 5] []) (PointXY 0 0) 3)
    as (l & Hl & _ & _ & Hfill & Hcount).
  - lia.
  - exists l. split; [exact Hl|]. split.
    + apply Hfill. unfold vertexCount. simpl. lia.
    + apply Hcount; reflexivity.
Defined.

(** ** The priority queue *)

Section Heap.

Lemma heappush_In (heap : list entry) (item a : entry) :
  In a (heappush heap item) <-> a = item \/ In a heap.
Proof.
  induction heap as [|h t IH]; simpl.
  - intuition.
  - destruct (entry_leb item h); simpl; [intuition|].
    rewrite IH. intuition.
Qed.

Lemma heappush_length (heap : list entry) (item : entry) :
  length (heappush heap item) = S (length heap).
Proof.
  induction heap as [|h t IH]; simpl; [reflexivity|].
  destruct (entry_leb item h); simpl; [reflexivity | rewrite IH; reflexivity].
Qed.

Lemma fold_heappush_In (l : list entry) : forall heap a,
  In a (fold_left heappush l heap) <-> In a l \/ In a heap.
Proof.
  induction l as [|e l IH]; intros heap a; simpl; [intuition|].
  rewrite IH, heappush_In. intuition.
Qed.

Lemma fold_heappush_length (l : list entry) : forall heap,
  length (fold_left heappush l heap) = (length l + length heap)%nat.
Proof.
  induction l as [|e l IH]; intros heap; simpl; [reflexivity|].
  rewrite IH, heappush_length. lia.
Qed.

Lemma heapify_In (l : list entry) (a : entry) :
  In a (heapify l) <-> In a l.
Proof. unfold heapify. rewrite fold_heappush_In. simpl. intuition. Qed.

Lemma heapify_length (l : list entry) : length (heapify l) = length l.
Proof. unfold heapify. rewrite fold_heappush_length. simpl. lia. Qed.

End Heap.

(** ** The search *)

(** The queue of a state that has an entry to pop. *)
Ltac pop_head st d c q Hq :=
  destruct (priority_queue st) as [|[d c] q] eqn:Hq; [congruence|].

Section Search.

Variable graph : QgsGraph.
Variable max_distance : Z.
Variable buffer_distance : Z.

#[local] Abbreviation examine_edge :=
  (examine_edge graph max_distance buffer_distance).
#[local] Abbreviation while_body :=
  (while_body graph max_distance buffer_distance).
#[local] Abbreviation while_priority_queue :=
  (while_priority_queue graph max_distance buffer_distance).

(** What examining one edge can do to the state: nothing, or one push
    together with one buffer, both at the tentative distance, which is
    within the budget. *)
Lemma examine_edge_cases current_distance current_node st j st' :
  examine_edge current_distance current_node st j = Returns st' ->
  st' = st
  \/ exists e start_node end_node next_node width,
       nth_error (edges graph) j = Some e
       /\ far_end current_node start_node end_node = Some next_node
       /\ current_distance + cost e <= max_distance
       /\ truediv (buffer_distance
                   * (max_distance - (current_distance + cost e)))
                  max_distance = Returns width
       /\ st' = SearchState
                  (searched_list st)
                  (searched_roads st
                   ++ [BufferedLine start_node end_node width
                                    (current_distance + cost e)])
                  (heappush (priority_queue st)
                            (current_distance + cost e, xy next_node)).
Proof.
  unfold AreaDataGenerator.examine_edge, edge, vertex_point.
  destruct (nth_error (edges graph) j) as [e|] eqn:He; [|discriminate].
  cbn [bind].
  destruct (nth_error (vertices graph) (fromVertex e)) as [s|];
    [|discriminate].
  destruct (nth_error (vertices graph) (toVertex e)) as [t|];
    [|discriminate].
  cbn [bind].
  destruct (far_end current_node s t) as [next_node|] eqn:Hfar.
  2:{ intros H; inversion H; left; reflexivity. }
  rewrite push_guard_budget.
  destruct (current_distance + cost e <=? max_distance) eqn:Hle.
  2:{ intros H; inversion H; left; reflexivity. }
  apply Z.leb_le in Hle.
  destruct (truediv _ max_distance) as [w|] eqn:Hdiv; [|discriminate].
  cbn [bind]. intros H; inversion H; subst st'; clear H.
  right. exists e, s, t, next_node, w. repeat split; assumption.
Qed.

(** The effect of the whole [for] loop over the edges of a vertex. *)
Lemma examine_edges_effect current_distance current_node js : forall st st',
  for_each (examine_edge current_distance current_node) js st = Returns st' ->
  searched_list st' = searched_list st
  /\ (length (priority_queue st')
      <= length (priority_queue st) + length js)%nat
  /\ (forall item, In item (priority_queue st') ->
        In item (priority_queue st)
        \/ exists e, In e (edges graph)
                     /\ fst item = current_distance + cost e
                     /\ current_distance + cost e <= max_distance)
  /\ (forall b, In b (searched_roads st') ->
        In b (searched_roads st)
        \/ exists e, In e (edges graph)
                     /\ at_distance b = current_distance + cost e
                     /\ current_distance + cost e <= max_distance
                     /\ truediv (buffer_distance
                                 * (max_distance - at_distance b))
                                max_distance = Returns (buff b)).
Proof.
  induction js as [|j js IH]; intros st st' Hrun; simpl in Hrun.
  - inversion Hrun; subst. simpl. repeat split; auto. lia.
  - destruct (examine_edge current_distance current_node st j)
      as [st1|] eqn:H1; [|discriminate].
    cbn [bind] in Hrun. destruct (IH _ _ Hrun) as (Hs & Hl & Hq & Hr).
    destruct (examine_edge_cases _ _ _ _ _ H1)
      as [-> | (e & s & t & nn & w & He & _ & Hle & Hdiv & ->)].
    + repeat split; auto. simpl. lia.
    + simpl in *. apply nth_error_In in He.
      split; [exact Hs|]. split; [rewrite heappush_length in Hl; lia|].
      split.
      * intros item Hin. destruct (Hq item Hin) as [H | H]; [|right; exact H].
        apply heappush_In in H. destruct H as [-> | H]; [|left; exact H].
        right. exists e. simpl. auto.
      * intros b Hin. destruct (Hr b Hin) as [H | H]; [|right; exact H].
        apply in_app_or in H. destruct H as [H | [<- | []]]; [left; exact H|].
        right. exists e. simpl. auto.
Qed.

Lemma edge_ids_length f es : forall k,
  (length (edge_ids f k es) <= length es)%nat.
Proof.
  induction es as [|e es IH]; intros k; simpl; [lia|].
  destruct (f e); simpl; specialize (IH (S k)); lia.
Qed.

Lemma edge_ids_valid f es : forall k j,
  In j (edge_ids f k es) ->
  (k <= j)%nat /\ exists e, nth_error es (j - k) = Some e /\ f e = true.
Proof.
  induction es as [|e es IH]; intros k j Hin; simpl in Hin; [contradiction|].
  assert (Hrec : In j (edge_ids f (S k) es) ->
                 (k <= j)%nat
                 /\ exists e', nth_error (e :: es) (j - k) = Some e'
                               /\ f e' = true).
  { intros H. destruct (IH _ _ H) as (Hk & e' & He' & Hf).
    split; [lia|]. exists e'. split; [|exact Hf].
    replace (j - k)%nat with (S (j - S k)) by lia. exact He'. }
  destruct (f e) eqn:Hfe; [|auto].
  destruct Hin as [<- | Hin]; [|auto].
  split; [lia|]. exists e. rewrite Nat.sub_diag. auto.
Qed.

Lemma incident_edges_length v :
  (length (outgoingEdges graph v ++ incomingEdges graph v)
   <= 2 * edgeCount graph)%nat.
Proof.
  rewrite length_app. unfold outgoingEdges, incomingEdges, edgeCount.
  pose proof (edge_ids_length (fun e => Nat.eqb (fromVertex e) v)
                              (edges graph) 0).
  pose proof (edge_ids_length (fun e => Nat.eqb (toVertex e) v)
                              (edges graph) 0).
  lia.
Qed.

Lemma incident_edges_valid v j :
  In j (outgoingEdges graph v ++ incomingEdges graph v) ->
  exists e, nth_error (edges graph) j = Some e.
Proof.
  intros H. apply in_app_or in H. unfold outgoingEdges, incomingEdges in H.
  destruct H as [H | H]; apply edge_ids_valid in H;
    destruct H as (_ & e & He & _); rewrite Nat.sub_0_r in He;
    exists e; exact He.
Qed.

(** Marking a coordinate. *)
Lemma py_in_set_add o c s :
  py_in o (set_add c s) = py_eq o (PyTuple c) || py_in o s.
Proof.
  unfold set_add. destruct (py_in (PyTuple c) s) eqn:Hin; [|reflexivity].
  destruct (py_eq o (PyTuple c)) eqn:Heq; [|reflexivity].
  destruct o as [c'|p]; [|discriminate]. simpl in Heq.
  apply coord_eqb_eq in Heq. subst. simpl. exact Hin.
Qed.

Lemma set_add_incl c s a : In a s -> In a (set_add c s).
Proof.
  unfold set_add. destruct (py_in (PyTuple c) s); simpl; auto.
Qed.

Lemma unsearched_filter_le c s vs :
  (length (filter (fun v => negb (py_in (PyTuple (xy v)) (set_add c s))) vs)
   <= length (filter (fun v => negb (py_in (PyTuple (xy v)) s)) vs))%nat.
Proof.
  induction vs as [|v vs IH]; simpl; [lia|].
  rewrite py_in_set_add.
  destruct (py_in (PyTuple (xy v)) s); simpl.
  - rewrite orb_true_r. simpl. exact IH.
  - destruct (coord_eqb (xy v) c); simpl; lia.
Qed.

Lemma unsearched_filter_lt c s vs :
  py_in (PyTuple c) s = false ->
  (exists v, In v vs /\ xy v = c) ->
  (length (filter (fun v => negb (py_in (PyTuple (xy v)) (set_add c s))) vs)
   < length (filter (fun v => negb (py_in (PyTuple (xy v)) s)) vs))%nat.
Proof.
  intros Hc (v0 & Hin & Hv0).
  induction vs as [|v vs IH]; simpl; [contradiction|].
  pose proof (unsearched_filter_le c s vs) as Hle.
  rewrite py_in_set_add.
  destruct Hin as [-> | Hin].
  - rewrite Hv0, Hc. simpl.
    replace (coord_eqb c c) with true
      by (symmetry; apply coord_eqb_eq; reflexivity).
    simpl. lia.
  - specialize (IH Hin).
    destruct (py_in (PyTuple (xy v)) s); simpl.
    + rewrite orb_true_r. simpl. exact IH.
    + destruct (coord_eqb (xy v) c); simpl; lia.
Qed.

Lemma find_from_In pt vs : forall i v,
  find_from pt i vs = Some v -> exists p, In p vs /\ p = pt.
Proof.
  induction vs as [|p vs IH]; intros i v H; simpl in H; [discriminate|].
  destruct (point_eqb p pt) eqn:E.
  - exists p. split; [left; reflexivity | apply point_eqb_eq; exact E].
  - destruct (IH _ _ H) as (p' & Hin & Hp'). exists p'. simpl; auto.
Qed.

Lemma unsearched_set_add_le c s :
  (unsearched graph (set_add c s) <= unsearched graph s)%nat.
Proof. apply unsearched_filter_le. Qed.

Lemma unsearched_set_add_lt c s v :
  py_in (PyTuple c) s = false ->
  findVertex graph (PointXY (fst c) (snd c)) = Some v ->
  (unsearched graph (set_add c s) < unsearched graph s)%nat.
Proof.
  intros Hc Hfind. apply unsearched_filter_lt; [exact Hc|].
  destruct (find_from_In _ _ _ _ Hfind) as (p & Hin & ->).
  eexists; split; [exact Hin|]. destruct c; reflexivity.
Qed.

(** What a popped entry leads to. *)
Lemma branch_of_Expand s current_distance current_node v :
  branch_of graph max_distance s (current_distance, current_node) = Expand v ->
  py_in (PyTuple current_node) s = false
  /\ current_distance <= max_distance
  /\ findVertex graph (PointXY (fst current_node) (snd current_node)) = Some v.
Proof.
  unfold branch_of.
  destruct (py_in (PyTuple current_node) s); [discriminate|].
  destruct (max_distance <? current_distance) eqn:Hlt; [discriminate|].
  apply Z.ltb_ge in Hlt.
  destruct (findVertex graph _) as [v'|]; [|discriminate].
  intros H; inversion H; subst. auto.
Qed.

(** One iteration of the loop: every entry it adds to the queue and every
    buffer it adds comes from an edge walked from the popped entry within
    the budget, and the variant decreases. *)
Lemma while_body_effect st st' current_distance current_node queue :
  priority_queue st = (current_distance, current_node) :: queue ->
  while_body st = Returns st' ->
  (forall item, In item (priority_queue st') ->
     In item queue
     \/ exists e, In e (edges graph)
                  /\ fst item = current_distance + cost e
                  /\ current_distance + cost e <= max_distance)
  /\ (forall b, In b (searched_roads st') ->
        In b (searched_roads st)
        \/ exists e, In e (edges graph)
                     /\ at_distance b = current_distance + cost e
                     /\ current_distance + cost e <= max_distance
                     /\ truediv (buffer_distance
                                 * (max_distance - at_distance b))
                                max_distance = Returns (buff b))
  /\ (variant graph st' < variant graph st)%nat.
Proof.
  intros Hq. unfold AreaDataGenerator.while_body, variant.
  rewrite Hq. cbn [heappop].
  destruct (branch_of graph max_distance (searched_list st)
                      (current_distance, current_node)) as [| | |v] eqn:Hb.
  - intros H; inversion H; subst; simpl. repeat split; auto; lia.
  - intros H; inversion H; subst; simpl.
    pose proof (unsearched_set_add_le current_node (searched_list st)).
    repeat split; auto; nia.
  - intros H; inversion H; subst; simpl.
    pose proof (unsearched_set_add_le current_node (searched_list st)).
    repeat split; auto; nia.
  - intros Hrun. apply branch_of_Expand in Hb. destruct Hb as (Hnot & _ & Hv).
    apply examine_edges_effect in Hrun. simpl in Hrun.
    destruct Hrun as (Hs & Hl & Hitems & Hroads).
    split; [exact Hitems | split; [exact Hroads|]].
    rewrite Hs. simpl.
    pose proof (unsearched_set_add_lt _ _ _ Hnot Hv).
    pose proof (incident_edges_length v). nia.
Qed.

(** The loop ends within [variant] iterations, with or without an
    exception. *)
Lemma while_priority_queue_terminates fuel : forall st,
  (variant graph st <= fuel)%nat ->
  exists r, while_priority_queue fuel st = Some r.
Proof.
  induction fuel as [|fuel IH]; intros st Hfuel.
  - unfold variant in Hfuel. simpl.
    destruct (priority_queue st); [eexists; reflexivity | simpl in Hfuel; lia].
  - simpl. destruct (priority_queue st) as [|[d c] q] eqn:Hq;
      [eexists; reflexivity|].
    destruct (while_body st) as [st'|e] eqn:Hbody; [|eexists; reflexivity].
    apply IH.
    destruct (while_body_effect _ _ _ _ _ Hq Hbody) as (_ & _ & Hlt). lia.
Qed.

(** A property that every iteration keeps holds when the loop returns. *)
Lemma while_priority_queue_invariant (Inv : search_state -> Prop) :
  (forall st st', Inv st -> priority_queue st <> [] ->
                  while_body st = Returns st' -> Inv st') ->
  forall fuel st st',
    Inv st -> while_priority_queue fuel st = Some (Returns st') ->
    Inv st' /\ priority_queue st' = [].
Proof.
  intros Hstep. induction fuel as [|fuel IH]; intros st st' Hinv Hrun;
    simpl in Hrun.
  - destruct (priority_queue st) eqn:Hq; [|discriminate].
    inversion Hrun; subst. auto.
  - destruct (priority_queue st) as [|item queue] eqn:Hq.
    + inversion Hrun; subst. auto.
    + destruct (while_body st) as [st1|err] eqn:Hbody; [|discriminate].
      apply (IH st1); [|exact Hrun].
      apply (Hstep st); [exact Hinv | rewrite Hq; discriminate | exact Hbody].
Qed.

(** When, moreover, no iteration raises from a state with the property,
    the loop returns. *)
Lemma while_priority_queue_returns (Inv : search_state -> Prop) :
  (forall st, Inv st -> priority_queue st <> [] ->
              exists st', while_body st = Returns st' /\ Inv st') ->
  forall fuel st,
    Inv st -> (variant graph st <= fuel)%nat ->
    exists st', while_priority_queue fuel st = Some (Returns st')
                /\ Inv st' /\ priority_queue st' = [].
Proof.
  intros Hstep. induction fuel as [|fuel IH]; intros st Hinv Hfuel.
  - unfold variant in Hfuel. simpl.
    destruct (priority_queue st) eqn:Hq; [|simpl in Hfuel; lia].
    exists st. auto.
  - simpl. destruct (priority_queue st) as [|[d c] q] eqn:Hq.
    + exists st. auto.
    + destruct (Hstep st Hinv) as (st1 & Hbody & Hinv1);
        [rewrite Hq; discriminate|].
      rewrite Hbody. apply IH; [exact Hinv1|].
      destruct (while_body_effect _ _ _ _ _ Hq Hbody) as (_ & _ & Hlt). lia.
Qed.

(** The fuel of [search] covers the variant of the initial state. *)
Lemma variant_initial start_points :
  (variant graph (initial_state start_points)
   <= pop_bound graph start_points)%nat.
Proof.
  unfold variant, pop_bound, initial_state, unsearched, vertexCount. simpl.
  rewrite heapify_length, length_map.
  pose proof (filter_length_le (fun _ : QgsPointXY => true)
                               (vertices graph)).
  nia.
Qed.

End Search.

(** ** The popped entry is the least one *)

Section SortedQueue.

Lemma entry_leb_total (a b : entry) :
  entry_leb a b = true \/ entry_leb b a = true.
Proof.
  destruct a as [d1 [x1 y1]], b as [d2 [x2 y2]]. unfold entry_leb.
  destruct (Z.lt_trichotomy d1 d2) as [H | [H | H]].
  - left. apply orb_true_iff. left. apply Z.ltb_lt. exact H.
  - subst d2. rewrite Z.ltb_irrefl, Z.eqb_refl. simpl.
    destruct (Z.lt_trichotomy x1 x2) as [Hx | [Hx | Hx]].
    + left. apply orb_true_iff. left. apply Z.ltb_lt. exact Hx.
    + subst x2. rewrite Z.ltb_irrefl, Z.eqb_refl. simpl.
      destruct (Z.le_ge_cases y1 y2) as [Hy | Hy];
        [left | right]; apply Z.leb_le; exact Hy.
    + right. apply orb_true_iff. left. apply Z.ltb_lt. exact Hx.
  - right. apply orb_true_iff. left. apply Z.ltb_lt. exact H.
Qed.

Lemma heappush_HdRel (a item : entry) (heap : list entry) :
  entry_leb a item = true ->
  HdRel (fun a b => entry_leb a b = true) a heap ->
  HdRel (fun a b => entry_leb a b = true) a (heappush heap item).
Proof.
  intros Hitem Hheap. destruct heap as [|h t]; simpl.
  - constructor. exact Hitem.
  - destruct (entry_leb item h); constructor;
      [exact Hitem | inversion Hheap; assumption].
Qed.

Lemma heappush_sorted (heap : list entry) (item : entry) :
  queue_sorted heap -> queue_sorted (heappush heap item).
Proof.
  unfold queue_sorted. induction heap as [|h t IH]; intros Hs; simpl.
  - repeat constructor.
  - destruct (entry_leb item h) eqn:Hle.
    + constructor; [exact Hs | constructor; exact Hle].
    + inversion Hs as [|? ? Ht Hh]; subst. constructor; [apply IH; exact Ht|].
      apply heappush_HdRel; [|exact Hh].
      destruct (entry_leb_total item h) as [H | H]; [congruence | exact H].
Qed.

Lemma heapify_sorted (l : list entry) : queue_sorted (heapify l).
Proof.
  unfold heapify.
  assert (H : forall heap, queue_sorted heap ->
                           queue_sorted (fold_left heappush l heap)).
  { induction l as [|e l IH]; intros heap Hs; simpl; [exact Hs|].
    apply IH. apply heappush_sorted. exact Hs. }
  apply H. constructor.
Qed.

Variable graph : QgsGraph.
Variable max_distance : Z.
Variable buffer_distance : Z.

Lemma examine_edges_sorted current_distance current_node js : forall st st',
  for_each (examine_edge graph max_distance buffer_distance
                         current_distance current_node) js st = Returns st' ->
  queue_sorted (priority_queue st) -> queue_sorted (priority_queue st').
Proof.
  induction js as [|j js IH]; intros st st' Hrun Hs; simpl in Hrun.
  - inversion Hrun; subst. exact Hs.
  - destruct (examine_edge graph max_distance buffer_distance
                           current_distance current_node st j)
      as [st1|] eqn:H1; [|discriminate].
    cbn [bind] in Hrun. apply (IH _ _ Hrun).
    destruct (examine_edge_cases _ _ _ _ _ _ _ _ H1)
      as [-> | (e & s & t & nn & w & _ & _ & _ & _ & ->)]; [exact Hs|].
    simpl. apply heappush_sorted. exact Hs.
Qed.

(** In every state of the loop the queue is ascending, so that the entry
    popped next is a least entry of the queue. *)
Lemma reachable_queue_sorted start_points st :
  reachable graph max_distance buffer_distance start_points st ->
  queue_sorted (priority_queue st).
Proof.
  induction 1 as [|st st' Hreach IH Hne Hbody].
  - apply heapify_sorted.
  - unfold while_body in Hbody.
    pop_head st d c q Hq.
    cbn [heappop] in Hbody.
    assert (Hq_sorted : queue_sorted q)
      by (inversion IH; assumption).
    destruct (branch_of graph max_distance (searched_list st) (d, c));
      try (inversion Hbody; subst; exact Hq_sorted).
    apply (examine_edges_sorted _ _ _ _ _ Hbody). exact Hq_sorted.
Qed.

End SortedQueue.

(** ** When the search does not raise *)

Section SearchReturns.

Variable graph : QgsGraph.
Variable max_distance : Z.
Variable buffer_distance : Z.
Hypothesis graph_ok : graph_wf graph.

#[local] Abbreviation examine_edge :=
  (examine_edge graph max_distance buffer_distance).
#[local] Abbreviation while_body :=
  (while_body graph max_distance buffer_distance).

Lemma wf_edge_points j e :
  nth_error (edges graph) j = Some e ->
  exists s t, nth_error (vertices graph) (fromVertex e) = Some s
              /\ nth_error (vertices graph) (toVertex e) = Some t.
Proof.
  intros He. apply nth_error_In in He.
  unfold graph_wf in graph_ok. rewrite Forall_forall in graph_ok.
  destruct (graph_ok e He) as [Hf Ht]. unfold vertexCount in *.
  destruct (nth_error (vertices graph) (fromVertex e)) as [s|] eqn:Hs;
    [|apply nth_error_None in Hs; lia].
  destruct (nth_error (vertices graph) (toVertex e)) as [t|] eqn:Hd;
    [|apply nth_error_None in Hd; lia].
  eauto.
Qed.

(** An edge whose tentative distance is over the budget changes nothing. *)
Lemma examine_edge_over_budget current_distance current_node st j e :
  nth_error (edges graph) j = Some e ->
  max_distance < current_distance + cost e ->
  examine_edge current_distance current_node st j = Returns st.
Proof.
  intros He Hover. destruct (wf_edge_points j e He) as (s & t & Hs & Ht).
  unfold AreaDataGenerator.examine_edge, edge, vertex_point.
  rewrite He. cbn [bind]. rewrite Hs, Ht. cbn [bind].
  destruct (far_end current_node s t); [|reflexivity].
  rewrite push_guard_budget.
  replace (current_distance + cost e <=? max_distance) with false
    by (symmetry; apply Z.leb_gt; exact Hover).
  reflexivity.
Qed.

(** The division is the only other place where examining an edge of the
    graph could raise. *)
Lemma examine_edge_returns current_distance current_node st j e :
  nth_error (edges graph) j = Some e ->
  (current_distance + cost e <= max_distance -> max_distance <> 0) ->
  exists st', examine_edge current_distance current_node st j = Returns st'.
Proof.
  intros He Hdiv. destruct (wf_edge_points j e He) as (s & t & Hs & Ht).
  unfold AreaDataGenerator.examine_edge, edge, vertex_point.
  rewrite He. cbn [bind]. rewrite Hs, Ht. cbn [bind].
  destruct (far_end current_node s t); [|eexists; reflexivity].
  rewrite push_guard_budget.
  destruct (current_distance + cost e <=? max_distance) eqn:Hle;
    [|eexists; reflexivity].
  apply Z.leb_le in Hle. unfold truediv.
  replace (max_distance =? 0) with false
    by (symmetry; apply Z.eqb_neq; auto).
  cbn [bind]. eexists; reflexivity.
Qed.

Lemma examine_edges_return current_distance current_node js :
  (forall j, In j js ->
     exists e, nth_error (edges graph) j = Some e
               /\ (current_distance + cost e <= max_distance
                   -> max_distance <> 0)) ->
  forall st, exists st',
    for_each (examine_edge current_distance current_node) js st = Returns st'.
Proof.
  induction js as [|j js IH]; intros Hjs st; simpl.
  - eexists; reflexivity.
  - destruct (Hjs j (or_introl eq_refl)) as (e & He & Hdiv).
    destruct (examine_edge_returns current_distance current_node st j e
                                   He Hdiv) as (st1 & H1).
    rewrite H1. cbn [bind]. apply IH. intros j' Hj'. apply Hjs. right; exact Hj'.
Qed.

Lemma examine_edges_over_budget current_distance current_node js :
  (forall j, In j js ->
     exists e, nth_error (edges graph) j = Some e
               /\ max_distance < current_distance + cost e) ->
  forall st,
    for_each (examine_edge current_distance current_node) js st = Returns st.
Proof.
  induction js as [|j js IH]; intros Hjs st; simpl; [reflexivity|].
  destruct (Hjs j (or_introl eq_refl)) as (e & He & Hover).
  rewrite (examine_edge_over_budget _ _ _ _ _ He Hover). cbn [bind].
  apply IH. intros j' Hj'. apply Hjs. right; exact Hj'.
Qed.

(** An iteration returns when the division by the budget is safe for the
    popped distance. *)
Lemma while_body_returns st current_distance current_node queue :
  priority_queue st = (current_distance, current_node) :: queue ->
  (forall e, In e (edges graph) ->
     current_distance + cost e <= max_distance -> max_distance <> 0) ->
  exists st', while_body st = Returns st'.
Proof.
  intros Hq Hdiv. unfold AreaDataGenerator.while_body. rewrite Hq.
  cbn [heappop].
  destruct (branch_of graph max_distance (searched_list st)
                      (current_distance, current_node)) as [| | |v];
    try (eexists; reflexivity).
  apply examine_edges_return. intros j Hj.
  destruct (incident_edges_valid graph v j Hj) as (e & He).
  exists e. split; [exact He|]. apply Hdiv. eapply nth_error_In; exact He.
Qed.

End SearchReturns.

(** C10.  With a budget that is not negative, every entry that the loop pops
    has a cumulative distance within the budget: the branch
    [if current_distance > max_distance: continue] is never taken. *)
Theorem popped_distance_within_budget (graph : QgsGraph)
  (max_distance buffer_distance : Z) (start_points : list QgsPointXY)
  (st : search_state) (item : entry) (queue : list entry) :
  0 <= max_distance ->
  reachable graph max_distance buffer_distance start_points st ->
  heappop (priority_queue st) = Some (item, queue) ->
  fst item <= max_distance
  /\ branch_of graph max_distance (searched_list st) item <> OverBudget.
Proof.
  intros Hmax Hreach Hpop.
  assert (Hinv : Forall (fun it => fst it <= max_distance) (priority_queue st)).
  { clear Hpop. induction Hreach as [|st st' Hreach IH Hne Hbody].
    - apply Forall_forall. intros it Hin. unfold initial_state in Hin.
      simpl in Hin. apply (proj1 (heapify_In _ _)) in Hin. apply in_map_iff in Hin.
      destruct Hin as (start & <- & _). exact Hmax.
    - pop_head st d c q Hq.
      destruct (while_body_effect _ _ _ _ _ _ _ _ Hq Hbody) as (Hitems & _ & _).
      rewrite Forall_forall in IH. apply Forall_forall. intros it Hin.
      destruct (Hitems it Hin) as [H | (e & _ & -> & Hle)]; [|exact Hle].
      apply IH. right; exact H. }
  destruct (priority_queue st) as [|it q]; [discriminate|].
  inversion Hpop; subst. inversion Hinv as [|? ? Hit _]; subst.
  split; [exact Hit|].
  unfold branch_of. destruct item as [d c]. simpl in Hit.
  destruct (py_in (PyTuple c) (searched_list st)); [discriminate|].
  replace (max_distance <? d) with false by (symmetry; apply Z.ltb_ge; exact Hit).
  destruct (findVertex graph _); discriminate.
Qed.

(** C5.  On a graph whose edges join its vertices and have positive weights
    the loop of the search terminates without an exception: within
    [pop_bound] pops the priority queue is empty. *)
Theorem search_terminates (graph : QgsGraph) (max_distance buffer_distance : Z)
  (start_points : list QgsPointXY) :
  graph_wf graph ->
  (forall e, In e (edges graph) -> 0 < cost e) ->
  exists st,
    while_priority_queue graph max_distance buffer_distance
                         (pop_bound graph start_points)
                         (initial_state start_points)
    = Some (Returns st)
    /\ search graph max_distance buffer_distance start_points
       = Some (Returns st)
    /\ priority_queue st = [].
Proof.
  intros Hwf Hpos.
  destruct (while_priority_queue_returns graph max_distance buffer_distance
              (fun st => Forall (fun it => 0 <= fst it) (priority_queue st)))
    with (fuel := pop_bound graph start_points)
         (st := initial_state start_points)
    as (st & Hrun & _ & Hempty).
  - intros st Hinv Hne.
    pop_head st d c q Hq.
    assert (Hd : 0 <= d) by (inversion Hinv; assumption).
    destruct (while_body_returns graph max_distance buffer_distance Hwf
                                 st d c q Hq) as (st' & Hbody).
    { intros e He Hle. specialize (Hpos e He). lia. }
    exists st'. split; [exact Hbody|].
    destruct (while_body_effect _ _ _ _ _ _ _ _ Hq Hbody) as (Hitems & _ & _).
    rewrite Forall_forall in Hinv. apply Forall_forall. intros it Hin.
    destruct (Hitems it Hin) as [H | (e & He & -> & _)].
    + apply Hinv. right; exact H.
    + specialize (Hpos e He). lia.
  - apply Forall_forall. intros it Hin. unfold initial_state in Hin.
    simpl in Hin. apply (proj1 (heapify_In _ _)) in Hin. apply in_map_iff in Hin.
    destruct Hin as (start & <- & _). simpl. lia.
  - apply variant_initial.
  - exists st. auto.
Qed.

(** The initial state of the split road, seed [(0, 0)], budget 500. *)
Lemma popped_distance_within_budget_witness :
  0 <= 500
  /\ heappop (priority_queue (initial_state [seed])) = Some ((0, (0, 0)), [])
  /\ fst (0, (0, 0)) <= 500
  /\ branch_of split_graph 500 (searched_list (initial_state [seed]))
               (0, (0, 0)) <> OverBudget.
Proof.
  split; [lia|]. split; [reflexivity|].
  apply (popped_distance_within_budget split_graph 500 200 [seed]
           (initial_state [seed]) (0, (0, 0)) []).
  - lia.
  - apply reachable_initial.
  - reflexivity.
Defined.

Lemma split_graph_wf : graph_wf split_graph.
Proof. unfold graph_wf, split_graph, vertexCount. simpl. repeat constructor. Qed.

Lemma split_graph_positive e : In e (edges split_graph) -> 0 < cost e.
Proof.
  simpl. intros H.
  repeat (destruct H as [<- | H]; [simpl; lia|]). contradiction.
Qed.

(** The split road, seed [(0, 0)], budget 500. *)
Lemma search_terminates_witness :
  exists st,
    search split_graph 500 200 [seed] = Some (Returns st)
    /\ priority_queue st = [].
Proof.
  destruct (search_terminates split_graph 500 200 [seed]
              split_graph_wf split_graph_positive) as (st & _ & Hrun & Hq).
  exists st. split; assumption.
Defined.

(** ** The search without buffers *)

Section NoBuffers.

Variable graph : QgsGraph.
Variable max_distance : Z.
Variable buffer_distance : Z.
Variable start_points : list QgsPointXY.
Hypothesis nothing_in_reach :
  max_distance < 0
  \/ (graph_wf graph
      /\ no_edge_within_budget graph start_points max_distance).

(** Nothing has been buffered and only start points wait in the queue. *)
Let quiet (st : search_state) : Prop :=
  searched_roads st = []
  /\ Forall (fun it => fst it = 0
                       /\ In (PointXY (fst (snd it)) (snd (snd it)))
                             start_points)
            (priority_queue st).

Lemma quiet_initial : quiet (initial_state start_points).
Proof.
  split; [reflexivity|]. apply Forall_forall. intros it Hin.
  unfold initial_state in Hin. simpl in Hin.
  apply (proj1 (heapify_In _ _)) in Hin. apply in_map_iff in Hin.
  destruct Hin as (start & <- & Hstart). simpl.
  split; [reflexivity|]. destruct start; exact Hstart.
Qed.

Lemma quiet_iteration st :
  quiet st -> priority_queue st <> [] ->
  exists st', while_body graph max_distance buffer_distance st = Returns st'
              /\ quiet st'.
Proof.
  intros [Hroads Hqueue] Hne.
  pop_head st d c q Hq.
  inversion Hqueue as [|? ? [Hd Hc] Hrest]; subst. simpl in Hd, Hc. subst d.
  unfold while_body. rewrite Hq. cbn [heappop].
  destruct (branch_of graph max_distance (searched_list st) (0, c))
    as [| | |v] eqn:Hb;
    try (eexists; split; [reflexivity | split; [exact Hroads | exact Hrest]]).
  apply branch_of_Expand in Hb. destruct Hb as (_ & Hbudget & Hv).
  destruct nothing_in_reach as [Hneg | [graph_ok over_budget]]; [lia|].
  rewrite (examine_edges_over_budget graph max_distance buffer_distance
                                     graph_ok).
  - eexists; split; [reflexivity | split; [exact Hroads | exact Hrest]].
  - intros j Hj. destruct (incident_edges_valid graph v j Hj) as (e & He).
    exists e. split; [exact He|].
    rewrite Z.add_0_l. exact (over_budget _ v j e Hc Hv Hj He).
Qed.

Lemma quiet_search :
  exists st,
    search graph max_distance buffer_distance start_points = Some (Returns st)
    /\ searched_roads st = [].
Proof.
  destruct (while_priority_queue_returns graph max_distance buffer_distance
              quiet quiet_iteration (pop_bound graph start_points)
              (initial_state start_points) quiet_initial
              (variant_initial graph start_points))
    as (st & Hrun & [Hroads _] & _).
  exists st. split; assumption.
Qed.

End NoBuffers.

(** C4.  On a graph without edges, and whenever no buffer can be collected
    -- the budget is negative, or no edge at a start point can be walked
    within the budget (start points that are isolated or are not vertices of
    the graph included) -- [dijkstra] raises nothing and returns the union of
    no polygons, an empty geometry. *)
Theorem dijkstra_without_buffers_is_empty
  (union_class : list buffered_line -> geometry_class) (graph : QgsGraph)
  (max_distance buffer_distance : Z) (start_points : list QgsPointXY) :
  edges graph = []
  \/ max_distance < 0
  \/ (graph_wf graph /\ no_edge_within_budget graph start_points max_distance) ->
  exists u,
    dijkstra union_class graph max_distance buffer_distance start_points
    = Some (Returns [u])
    /\ u = unary_union union_class []
    /\ members u = []
    /\ is_empty u = true.
Proof.
  intros H.
  assert (Hquiet : max_distance < 0
                   \/ (graph_wf graph
                       /\ no_edge_within_budget graph start_points
                                                max_distance)).
  { destruct H as [Hnil | H]; [|exact H]. right. split.
    - unfold graph_wf. rewrite Hnil. constructor.
    - intros start v j e _ _ _ He. rewrite Hnil in He.
      destruct j; discriminate. }
  destruct (quiet_search graph max_distance buffer_distance start_points
                         Hquiet) as (st & Hrun & Hroads).
  exists (unary_union union_class []).
  unfold dijkstra. rewrite Hrun. cbn [bind]. rewrite Hroads.
  repeat split.
Qed.

(** A graph of three vertices without edges, and the straight road whose
    only edge is longer than the budget. *)
Lemma dijkstra_without_buffers_is_empty_witness :
  (exists u,
     dijkstra (fun _ => Polygon)
              (Graph [PointXY 0 0; PointXY 7 0; PointXY 0 9] []) 500 200
              [seed; PointXY 3 3] = Some (Returns [u])
     /\ is_empty u = true)
  /\ (exists u,
        dijkstra (fun _ => Polygon) straight_graph 500 200 [seed]
        = Some (Returns [u])
        /\ is_empty u = true).
Proof.
  split.
  - destruct (dijkstra_without_buffers_is_empty
                (fun _ => Polygon)
                (Graph [PointXY 0 0; PointXY 7 0; PointXY 0 9] []) 500 200
                [seed; PointXY 3 3]) as (u & Hu & _ & _ & He).
    + left. reflexivity.
    + exists u. split; assumption.
  - destruct (dijkstra_without_buffers_is_empty
                (fun _ => Polygon) straight_graph 500 200 [seed])
      as (u & Hu & _ & _ & He).
    + right. right. split.
      * unfold graph_wf, straight_graph, vertexCount. simpl.
        repeat constructor.
      * intros start v j e Hs Hv Hj He.
        destruct Hs as [<- | []]. vm_compute in Hv. inversion Hv; subst v.
        vm_compute in Hj. destruct Hj as [<- | []].
        vm_compute in He. inversion He; subst e. simpl. lia.
    + exists u. split; assumption.
Defined.

(** ** The buffers that the search emits *)

Section Emitted.

Variable graph : QgsGraph.
Variable max_distance : Z.
Variable buffer_distance : Z.

(** Every buffer was computed at a tentative distance within the budget,
    by the division of the source. *)
Lemma search_emitted start_points st :
  search graph max_distance buffer_distance start_points = Some (Returns st) ->
  forall b, In b (searched_roads st) ->
    at_distance b <= max_distance
    /\ truediv (buffer_distance * (max_distance - at_distance b)) max_distance
       = Returns (buff b).
Proof.
  intros Hrun.
  destruct (while_priority_queue_invariant graph max_distance buffer_distance
              (fun st => forall b, In b (searched_roads st) ->
                 at_distance b <= max_distance
                 /\ truediv (buffer_distance
                             * (max_distance - at_distance b)) max_distance
                    = Returns (buff b)))
    with (fuel := pop_bound graph start_points)
         (st := initial_state start_points) (st' := st) as [Hinv _].
  - intros s s' Hs Hne Hbody.
    pop_head s d c q Hq.
    destruct (while_body_effect _ _ _ _ _ _ _ _ Hq Hbody) as (_ & Hroads & _).
    intros b Hb.
    destruct (Hroads b Hb) as [H | (e & _ & Hat & Hle & Hdiv)]; [auto|].
    rewrite Hat. split; [exact Hle | rewrite <- Hat; exact Hdiv].
  - intros b [].
  - exact Hrun.
  - exact Hinv.
Qed.

Lemma truediv_width d w :
  max_distance <> 0 ->
  truediv (buffer_distance * (max_distance - d)) max_distance = Returns w ->
  w = buffer_width buffer_distance max_distance d.
Proof.
  intros Hmax. unfold truediv, buffer_width.
  replace (max_distance =? 0) with false
    by (symmetry; apply Z.eqb_neq; exact Hmax).
  intros H; inversion H; reflexivity.
Qed.

(** The width does not grow with the distance. *)
Lemma buffer_width_antitone d1 d2 :
  0 < max_distance -> 0 <= buffer_distance -> d1 <= d2 ->
  (buffer_width buffer_distance max_distance d2
   <= buffer_width buffer_distance max_distance d1)%Q.
Proof.
  intros Hmax Hbuf Hd. unfold buffer_width, Qdiv.
  apply Qmult_le_compat_r.
  - rewrite <- Zle_Qle. nia.
  - apply Qinv_le_0_compat. change 0%Q with (inject_Z 0).
    rewrite <- Zle_Qle. lia.
Qed.

End Emitted.

(** C6.  Buffer width decay: with a positive budget and a base width that is
    not negative, any two buffers emitted by one search at tentative
    distances [d1 < d2] have widths
    [buffer_distance * (max_distance - d) / max_distance] with
    [d2 <= max_distance], and the width at [d1] is at least the width at
    [d2]. *)
Theorem buffer_width_decay (graph : QgsGraph) (max_distance buffer_distance : Z)
  (start_points : list QgsPointXY) (st : search_state) (b1 b2 : buffered_line) :
  0 < max_distance ->
  0 <= buffer_distance ->
  search graph max_distance buffer_distance start_points = Some (Returns st) ->
  In b1 (searched_roads st) ->
  In b2 (searched_roads st) ->
  at_distance b1 < at_distance b2 ->
  at_distance b2 <= max_distance
  /\ buff b1 = buffer_width buffer_distance max_distance (at_distance b1)
  /\ buff b2 = buffer_width buffer_distance max_distance (at_distance b2)
  /\ (buff b2 <= buff b1)%Q.
Proof.
  intros Hmax Hbuf Hrun H1 H2 Hlt.
  destruct (search_emitted _ _ _ _ _ Hrun b1 H1) as [_ Hw1].
  destruct (search_emitted _ _ _ _ _ Hrun b2 H2) as [Hle2 Hw2].
  apply truediv_width in Hw1; [|lia]. apply truediv_width in Hw2; [|lia].
  repeat split; try assumption.
  rewrite Hw1, Hw2. apply buffer_width_antitone; lia.
Qed.

(** The search of the split road, evaluated. *)
Lemma split_road_search :
  search split_graph 500 200 [seed] = Some (Returns split_road_result).
Proof. vm_compute. reflexivity. Qed.

(** The buffers of the first two segments of the split road, emitted at the
    distances 100 and 200: the widths are 160 and 120. *)
Lemma buffer_width_decay_witness :
  0 < 500 /\ 0 <= 200
  /\ at_distance (split_buffer 0 100) < at_distance (split_buffer 1 200)
  /\ (buff (split_buffer 0 100) == 160)%Q
  /\ (buff (split_buffer 1 200) == 120)%Q
  /\ (buff (split_buffer 1 200) <= buff (split_buffer 0 100))%Q.
Proof.
  split; [lia|]. split; [lia|]. split; [simpl; lia|].
  split; [reflexivity|]. split; [reflexivity|].
  apply (buffer_width_decay split_graph 500 200 [seed] split_road_result
           (split_buffer 0 100) (split_buffer 1 200)).
  - lia.
  - lia.
  - exact split_road_search.
  - simpl. auto.
  - simpl. auto.
  - simpl. lia.
Defined.

(** ** The visited test of the push *)

(** C2.  The push is not guarded by the visited set.  On two segments in a
    row, budget 500, seed [(0, 0)]: when [(100, (100, 0))] is popped, the
    edge back to [(0, 0)] is examined while [(0, 0)] is in [searched_list];
    the entry [(200, (0, 0))] is pushed all the same and a second buffer of
    the first segment is emitted.  The search ends with four buffers for two
    edges. *)
Theorem examine_edge_pushes_searched_neighbour :
  let popped := SearchState [(0, 0)]
                  [road_buffer (PointXY 0 0) (PointXY 100 0) 100]
                  [(100, (100, 0))] in
  let marked := SearchState [(100, 0); (0, 0)] (searched_roads popped) [] in
  reachable two_segment_graph 500 200 [seed] popped
  /\ far_end (100, 0) (PointXY 0 0) (PointXY 100 0) = Some (PointXY 0 0)
  /\ In (xy (PointXY 0 0)) (searched_list marked)
  /\ examine_edge two_segment_graph 500 200 100 (100, 0) marked 0
     = Returns (SearchState
                  (searched_list marked)
                  (searched_roads marked
                   ++ [road_buffer (PointXY 0 0) (PointXY 100 0) 200])
                  [(200, (0, 0))])
  /\ while_body two_segment_graph 500 200 popped
     = Returns (SearchState
                  (searched_list marked)
                  [road_buffer (PointXY 0 0) (PointXY 100 0) 100;
                   road_buffer (PointXY 100 0) (PointXY 200 0) 200;
                   road_buffer (PointXY 0 0) (PointXY 100 0) 200]
                  [(200, (0, 0)); (200, (200, 0))])
  /\ search two_segment_graph 500 200 [seed]
     = Some (Returns
               (SearchState
                  [(200, 0); (100, 0); (0, 0)]
                  [road_buffer (PointXY 0 0) (PointXY 100 0) 100;
                   road_buffer (PointXY 100 0) (PointXY 200 0) 200;
                   road_buffer (PointXY 0 0) (PointXY 100 0) 200;
                   road_buffer (PointXY 100 0) (PointXY 200 0) 300]
                  [])).
Proof.
  cbv zeta. split.
  - apply (reachable_iteration _ _ _ _ (initial_state [seed])).
    + apply reachable_initial.
    + discriminate.
    + vm_compute. reflexivity.
  - repeat split; try (vm_compute; reflexivity). simpl. auto.
Qed.

(** ** The end-to-end scenario *)

(** C1, as stated, fails on the split road: it is not the case that exactly
    five buffers are emitted and that all of them are non-empty.  The buffer
    emitted at the tentative distance 500 has the width
    [200 * (500 - 500) / 500 = 0]. *)
Lemma split_road_five_nonempty_buffers_fails :
  ~ (exists st,
       search split_graph 500 200 [seed] = Some (Returns st)
       /\ length (searched_roads st) = 5%nat
       /\ forall b, In b (searched_roads st) -> polygon_is_empty b = false).
Proof.
  intros (st & Hrun & _ & Hnonempty).
  rewrite split_road_search in Hrun. inversion Hrun; subst st; clear Hrun.
  specialize (Hnonempty (split_buffer 4 500)).
  assert (Hin : In (split_buffer 4 500) (searched_roads split_road_result))
    by (simpl; tauto).
  apply Hnonempty in Hin. vm_compute in Hin. discriminate.
Qed.

(** C1, amended.  The straight road: the builder gives one edge of 1000 m,
    the search emits no buffer and [dijkstra] returns the empty union.  The
    split road (as ten features or as one polyline): each of the five
    segments within the budget is buffered at the distance of its first
    traversal, 100 to 500, with the widths 160, 120, 80, 40 and 0; every
    emitted buffer is a buffer of one of these five segments, at a tentative
    distance between 100 and 500; a buffer is empty exactly when its distance
    is 500; the union is not empty, and every buffer lies within 700 of the
    seed. *)
Theorem end_to_end_scenario
  (union_class : list buffered_line -> geometry_class) :
  (extract_road_nodes straight_road = Returns straight_graph
   /\ (exists st, search straight_graph 500 200 [seed] = Some (Returns st)
                  /\ searched_roads st = [])
   /\ dijkstra union_class straight_graph 500 200 [seed]
      = Some (Returns [Geometry GeometryCollection []]))
  /\ extract_road_nodes split_road = Returns split_graph
  /\ extract_road_nodes split_polyline = Returns split_graph
  /\ exists st,
       search split_graph 500 200 [seed] = Some (Returns st)
       /\ dijkstra union_class split_graph 500 200 [seed]
          = Some (Returns [unary_union union_class (searched_roads st)])
       /\ (forall i, 0 <= i < 5 ->
             In (split_buffer i (100 * (i + 1))) (searched_roads st))
       /\ ((buffer_width 200 500 100 == 160)%Q
           /\ (buffer_width 200 500 200 == 120)%Q
           /\ (buffer_width 200 500 300 == 80)%Q
           /\ (buffer_width 200 500 400 == 40)%Q
           /\ (buffer_width 200 500 500 == 0)%Q)
       /\ (forall b, In b (searched_roads st) ->
             exists i, 0 <= i < 5
                       /\ line_start b = PointXY (100 * i) 0
                       /\ line_end b = PointXY (100 * (i + 1)) 0
                       /\ 100 <= at_distance b <= 500
                       /\ buff b = buffer_width 200 500 (at_distance b))
       /\ (forall b, In b (searched_roads st) ->
             polygon_is_empty b = true <-> at_distance b = 500)
       /\ is_empty (unary_union union_class (searched_roads st)) = false
       /\ forall b, In b (searched_roads st) -> within seed 700 b.
Proof.
  split; [|split; [reflexivity | split; [reflexivity|]]].
  - split; [reflexivity|]. split; [|reflexivity].
    eexists. split; [vm_compute; reflexivity | reflexivity].
  - exists split_road_result.
    split; [exact split_road_search|].
    split; [unfold dijkstra; rewrite split_road_search; reflexivity|].
    split.
    { intros i Hi.
      assert (Hcases : i = 0 \/ i = 1 \/ i = 2 \/ i = 3 \/ i = 4) by lia.
      destruct Hcases as [-> | [-> | [-> | [-> | ->]]]]; simpl; tauto. }
    split; [repeat split|].
    split.
    { intros b Hb. simpl in Hb.
      repeat (destruct Hb as [<- | Hb];
              [first [ exists 0; simpl; repeat split; lia
                     | exists 1; simpl; repeat split; lia
                     | exists 2; simpl; repeat split; lia
                     | exists 3; simpl; repeat split; lia
                     | exists 4; simpl; repeat split; lia ]|]).
      contradiction. }
    split.
    { intros b Hb. simpl in Hb.
      repeat (destruct Hb as [<- | Hb];
              [vm_compute; split; intros H; (reflexivity || discriminate H)|]).
      contradiction. }
    split; [reflexivity|].
    intros b Hb. simpl in Hb.
    repeat (destruct Hb as [<- | Hb];
            [vm_compute; repeat split; discriminate|]).
    contradiction.
Qed.

(** ** Storing the area *)

(** C3, as stated, fails.  A shelter with no road nearby: the search returns
    the empty union, which is not a [Polygon], and no feature is stored for
    the shelter.  A union in several parts is a [MultiPolygon] and is not
    stored either, where the same buffers as one [Polygon] are: for the two
    parallel roads the buffers are at most 160 wide and the roads 400 apart,
    so the union has two parts. *)
Lemma empty_or_multipart_union_not_stored :
  shelter_area (fun _ => Polygon) 500 [] (Shelter 7 seed 0) (Output [] [])
  = Some (Returns (Output [] [NotAPolygon]))
  /\ shelter_area (fun _ => MultiPolygon) 500 far_roads
                  (Shelter 7 (PointXY 50 200) 0) (Output [] [])
     = Some (Returns (Output [] [NotAPolygon]))
  /\ add_buffered_polygons
       7 [Geometry MultiPolygon
                   [road_buffer (PointXY 0 0) (PointXY 100 0) 100;
                    road_buffer (PointXY 0 400) (PointXY 100 400) 100]]
       (Output [] [])
     = Output [] [NotAPolygon]
  /\ add_buffered_polygons
       7 [Geometry Polygon
                   [road_buffer (PointXY 0 0) (PointXY 100 0) 100;
                    road_buffer (PointXY 0 400) (PointXY 100 400) 100]]
       (Output [] [])
     = Output [Feature
                 (Geometry Polygon
                    [road_buffer (PointXY 0 0) (PointXY 100 0) 100;
                     road_buffer (PointXY 0 400) (PointXY 100 400) 100]) 7]
              [].
Proof. repeat split; vm_compute; reflexivity. Qed.

(** C3, amended.  What [dijkstra] returns is the list of one geometry, the
    union of the emitted buffers.  The caller stores it with the shelter's
    [fid] when it is a [Polygon]; a [MultiPolygon] or the empty
    [GeometryCollection] is not stored, a message is printed instead. *)
Theorem union_stored_when_polygon
  (union_class : list buffered_line -> geometry_class) (graph : QgsGraph)
  (max_distance buffer_distance : Z) (start_points : list QgsPointXY)
  (merge_searched_road : list geometry) (fid : Z) (out : output) :
  dijkstra union_class graph max_distance buffer_distance start_points
  = Some (Returns merge_searched_road) ->
  exists st,
    search graph max_distance buffer_distance start_points = Some (Returns st)
    /\ merge_searched_road = [unary_union union_class (searched_roads st)]
    /\ add_buffered_polygons fid merge_searched_road out
       = match geom_class (unary_union union_class (searched_roads st)) with
         | Polygon =>
             Output (shelter_buffer_layer out
                     ++ [Feature (unary_union union_class (searched_roads st))
                                 fid])
                    (printed out)
         | MultiPolygon | GeometryCollection =>
             Output (shelter_buffer_layer out) (printed out ++ [NotAPolygon])
         end.
Proof.
  unfold dijkstra.
  destruct (search graph max_distance buffer_distance start_points)
    as [[st|e]|]; cbn [bind]; intros H; inversion H; subst; clear H.
  exists st. split; [reflexivity|]. split; [reflexivity|].
  simpl. destruct (geom_class _); reflexivity.
Qed.

(** The split road when its union is one polygon: the feature is stored. *)
Lemma union_stored_when_polygon_witness :
  dijkstra (fun _ => Polygon) split_graph 500 200 [seed]
  = Some (Returns [Geometry Polygon (searched_roads split_road_result)])
  /\ add_buffered_polygons
       7 [Geometry Polygon (searched_roads split_road_result)] (Output [] [])
     = Output [Feature (Geometry Polygon (searched_roads split_road_result)) 7]
              [].
Proof.
  assert (Hrun : dijkstra (fun _ => Polygon) split_graph 500 200 [seed]
                 = Some (Returns [Geometry Polygon
                                    (searched_roads split_road_result)]))
    by (unfold dijkstra; rewrite split_road_search; reflexivity).
  split; [exact Hrun|].
  destruct (union_stored_when_polygon _ _ _ _ _ _ 7 (Output [] []) Hrun)
    as (st & Hsearch & _ & Hstore).
  rewrite split_road_search in Hsearch. inversion Hsearch; subst st.
  exact Hstore.
Defined.

(** * Further properties *)

(** ** More on the graph builder *)

Section BuilderEdges.


Lemma ensure_vertex_extends st p :
  exists ext, vertices (builder (ensure_vertex st p))
              = vertices (builder st) ++ ext.
Proof.
  unfold ensure_vertex.
  destruct (vertex_map_get p (vertex_map st)); simpl.
  - exists []. rewrite app_nil_r. reflexivity.
  - exists [p]. reflexivity.
Qed.

Lemma nth_error_app_left {A} (l ext : list A) (i : nat) (a : A) :
  nth_error l i = Some a -> nth_error (l ++ ext) i = Some a.
Proof.
  intros H. rewrite nth_error_app1; [exact H|].
  apply nth_error_Some. congruence.
Qed.

Lemma edges_measured_extends vs ext es :
  edges_measured (Graph vs es) -> edges_measured (Graph (vs ++ ext) es).
Proof.
  intros H e He. destruct (H e He) as (p1 & p2 & H1 & H2 & Hc).
  exists p1, p2. simpl in *.
  repeat split; try assumption;
    apply nth_error_app_left; assumption.
Qed.

Lemma ensure_vertex_measured st p :
  edges_measured (builder st) -> edges_measured (builder (ensure_vertex st p)).
Proof.
  intros H. destruct (ensure_vertex_extends st p) as (ext & Hext).
  pose proof (ensure_vertex_edges st p) as Hedges.
  destruct (builder (ensure_vertex st p)) as [vs' es'].
  destruct (builder st) as [vs es]. simpl in *. subst.
  apply edges_measured_extends. exact H.
Qed.

(** One segment: one more edge, from the vertex of [p1] to the vertex of
    [p2]. *)
Lemma add_segment_edge st p1 p2 :
  builder_inv st -> edges_measured (builder st) ->
  exists st', add_segment st p1 p2 = Returns st'
              /\ builder_inv st'
              /\ edges_measured (builder st')
              /\ edgeCount (builder st') = S (edgeCount (builder st)).
Proof.
  intros Hinv Hm. unfold add_segment.
  pose proof (ensure_vertex_inv st p1 Hinv) as Hinv1.
  pose proof (ensure_vertex_inv _ p2 Hinv1) as Hinv2.
  pose proof (ensure_vertex_measured _ p2 (ensure_vertex_measured st p1 Hm))
    as Hm2.
  destruct (ensure_vertex_get st p1) as [id1 H1].
  destruct (ensure_vertex_get (ensure_vertex st p1) p2) as [id2 H2].
  pose proof (ensure_vertex_keeps _ p2 _ _ Hinv1 H1) as H1'.
  rewrite (vertex_map_item_get _ _ _ H1'), (vertex_map_item_get _ _ _ H2).
  cbn [bind]. eexists; split; [reflexivity|].
  set (st2 := ensure_vertex (ensure_vertex st p1) p2) in *.
  split; [exact Hinv2|]. split.
  - intros e He. simpl in He. apply in_app_or in He.
    destruct He as [He | [<- | []]].
    + destruct (Hm2 e He) as (q1 & q2 & Hq1 & Hq2 & Hc).
      exists q1, q2. simpl. auto.
    + exists p1, p2. simpl. destruct Hinv2 as [_ Hmap].
      repeat split; [apply Hmap; exact H1' | apply Hmap; exact H2].
  - unfold edgeCount. simpl. rewrite length_app. simpl.
    unfold st2. rewrite !ensure_vertex_edges. lia.
Qed.

Lemma add_line_edges line : forall st,
  builder_inv st -> edges_measured (builder st) ->
  exists st', add_line st line = Returns st'
              /\ builder_inv st'
              /\ edges_measured (builder st')
              /\ edgeCount (builder st')
                 = (edgeCount (builder st) + line_segments line)%nat.
Proof.
  induction line as [|p1 rest IH]; intros st Hinv Hm.
  - exists st. unfold line_segments. simpl.
    split; [reflexivity|]. split; [assumption|]. split; [assumption | lia].
  - destruct rest as [|p2 rest'].
    + exists st. unfold line_segments. simpl.
    split; [reflexivity|]. split; [assumption|]. split; [assumption | lia].
    + destruct (add_segment_edge st p1 p2 Hinv Hm)
        as (st1 & Hseg & Hinv1 & Hm1 & Hc1).
      destruct (IH st1 Hinv1 Hm1) as (st2 & Hline & Hinv2 & Hm2 & Hc2).
      exists st2.
      change (add_line st (p1 :: p2 :: rest'))
        with (st' <- add_segment st p1 p2 ;; add_line st' (p2 :: rest')).
      rewrite Hseg. cbn [bind].
      split; [exact Hline|]. split; [assumption|]. split; [assumption|].
      rewrite Hc2, Hc1. unfold line_segments. simpl. lia.
Qed.

Lemma add_lines_edges lines : forall st,
  builder_inv st -> edges_measured (builder st) ->
  exists st', for_each add_line lines st = Returns st'
              /\ builder_inv st'
              /\ edges_measured (builder st')
              /\ edgeCount (builder st')
                 = (edgeCount (builder st)
                    + list_sum (map line_segments lines))%nat.
Proof.
  induction lines as [|line lines IH]; intros st Hinv Hm.
  - exists st. simpl.
    split; [reflexivity|]. split; [assumption|]. split; [assumption | lia].
  - destruct (add_line_edges line st Hinv Hm)
      as (st1 & H1 & Hinv1 & Hm1 & Hc1).
    destruct (IH st1 Hinv1 Hm1) as (st2 & H2 & Hinv2 & Hm2 & Hc2).
    exists st2. cbn [for_each]. rewrite H1. cbn [bind].
    split; [exact H2|]. split; [assumption|]. split; [assumption|].
    rewrite Hc2, Hc1. simpl. lia.
Qed.

Lemma add_feature_edges st road :
  is_line_geometry road ->
  builder_inv st -> edges_measured (builder st) ->
  exists st', add_feature st road = Returns st'
              /\ builder_inv st'
              /\ edges_measured (builder st')
              /\ edgeCount (builder st')
                 = (edgeCount (builder st) + segment_count [road])%nat.
Proof.
  intros Hroad Hinv Hm. unfold segment_count.
  destruct road as [|line|lines|]; simpl.
  - exists st.
    split; [reflexivity|]. split; [assumption|]. split; [assumption | lia].
  - destruct (add_line_edges line st Hinv Hm) as (st1 & H1 & Hinv1 & Hm1 & Hc1).
    exists st1. rewrite H1. cbn [bind].
    split; [reflexivity|]. split; [assumption|]. split; [assumption | lia].
  - destruct (add_lines_edges lines st Hinv Hm)
      as (st1 & H1 & Hinv1 & Hm1 & Hc1).
    exists st1.
    split; [exact H1|]. split; [assumption|]. split; [assumption | lia].
  - exfalso. apply Hroad. reflexivity.
Qed.

Lemma add_features_edges roads : forall st,
  Forall is_line_geometry roads ->
  builder_inv st -> edges_measured (builder st) ->
  exists st', for_each add_feature roads st = Returns st'
              /\ builder_inv st'
              /\ edges_measured (builder st')
              /\ edgeCount (builder st')
                 = (edgeCount (builder st) + segment_count roads)%nat.
Proof.
  induction roads as [|road roads IH]; intros st Hall Hinv Hm.
  - exists st. unfold segment_count. simpl.
    split; [reflexivity|]. split; [assumption|]. split; [assumption | lia].
  - inversion Hall as [|? ? Hroad Hrest]; subst.
    destruct (add_feature_edges st road Hroad Hinv Hm)
      as (st1 & H1 & Hinv1 & Hm1 & Hc1).
    destruct (IH st1 Hrest Hinv1 Hm1) as (st2 & H2 & Hinv2 & Hm2 & Hc2).
    exists st2. cbn [for_each]. rewrite H1. cbn [bind].
    split; [exact H2|]. split; [assumption|]. split; [assumption|].
    rewrite Hc2, Hc1. unfold segment_count. simpl. lia.
Qed.


End BuilderEdges.



(** X2.  The builder adds one edge per segment and never merges edges: the
    number of edges is the number of consecutive point pairs of all lines,
    so a road given twice yields every edge twice. *)
Theorem extract_road_nodes_edge_count (roads : list QgsGeometry) :
  Forall is_line_geometry roads ->
  exists g,
    extract_road_nodes roads = Returns g
    /\ edgeCount g = segment_count roads.
Proof.
  intros Hall.
  destruct (add_features_edges roads (BuilderState empty_graph [] 0) Hall
                               builder_inv_empty)
    as (st & Hrun & _ & _ & Hc).
  { intros e []. }
  exists (builder st). unfold extract_road_nodes. rewrite Hrun. cbn [bind].
  split; [reflexivity | exact Hc].
Qed.

Lemma extract_road_nodes_edge_count_witness :
  exists g,
    extract_road_nodes (straight_road ++ straight_road) = Returns g
    /\ edgeCount g = 2%nat
    /\ vertexCount g = 2%nat.
Proof.
  destruct (extract_road_nodes_edge_count (straight_road ++ straight_road))
    as (g & Hg & Hc).
  - repeat constructor; discriminate.
  - exists g. split; [exact Hg|]. split; [exact Hc|].
    vm_compute in Hg. inversion Hg. reflexivity.
Defined.

(** X3.  A feature whose geometry is neither empty nor a (multi-)polyline
    aborts the build: building the warning text raises [TypeError], whatever
    the other features are. *)
Theorem extract_road_nodes_unsupported_geometry (roads : list QgsGeometry) :
  In OtherGeometry roads ->
  extract_road_nodes roads = Raises TypeError.
Proof.
  intros Hin. unfold extract_road_nodes.
  assert (H : forall st, builder_inv st ->
                for_each add_feature roads st = Raises TypeError).
  { induction roads as [|road roads IH]; intros st Hinv; [contradiction|].
    cbn [for_each].
    destruct road as [|line|lines|] eqn:Hroad.
    - simpl. apply IH; [|exact Hinv].
      destruct Hin as [H | H]; [discriminate | exact H].
    - destruct (add_features_spec [LineString line] st) as (st1 & H1 & Hinv1 & _);
        [repeat constructor; discriminate | exact Hinv|].
      cbn [for_each] in H1.
      destruct (add_feature st (LineString line)) as [st1'|]; [|discriminate].
      cbn [bind] in *. inversion H1; subst. apply IH; [|exact Hinv1].
      destruct Hin as [H | H]; [discriminate | exact H].
    - destruct (add_features_spec [MultiLineString lines] st)
        as (st1 & H1 & Hinv1 & _);
        [repeat constructor; discriminate | exact Hinv|].
      cbn [for_each] in H1.
      destruct (add_feature st (MultiLineString lines)) as [st1'|];
        [|discriminate].
      cbn [bind] in *. inversion H1; subst. apply IH; [|exact Hinv1].
      destruct Hin as [H | H]; [discriminate | exact H].
    - reflexivity. }
  rewrite (H _ builder_inv_empty). reflexivity.
Qed.

Lemma extract_road_nodes_unsupported_geometry_witness :
  extract_road_nodes (straight_road ++ [OtherGeometry] ++ far_roads)
  = Raises TypeError.
Proof.
  apply extract_road_nodes_unsupported_geometry.
  simpl. auto.
Defined.

(** ** More on the nearest-node lookup *)

(** X4.  With [k = 0] the lookup returns the empty list on a graph without
    vertices and raises [ValueError] (from [max([])]) as soon as the graph
    has a vertex. *)
Theorem nearest_point_no_slots (g : QgsGraph) (point : QgsPointXY) :
  nearest_point g point 0
  = match vertices g with
    | [] => Returns []
    | _ :: _ => Raises ValueError
    end.
Proof.
  unfold nearest_point. destruct (vertices g) as [|v vs]; reflexivity.
Qed.

Section KNearest.

Variable point : QgsPointXY.















End KNearest.





(** ** More on the search *)

Section SearchDetail.

Variable graph : QgsGraph.
Variable max_distance : Z.
Variable buffer_distance : Z.

#[local] Abbreviation examine_edge :=
  (examine_edge graph max_distance buffer_distance).
#[local] Abbreviation while_body :=
  (while_body graph max_distance buffer_distance).
#[local] Abbreviation while_priority_queue :=
  (while_priority_queue graph max_distance buffer_distance).
#[local] Abbreviation steps := (steps graph max_distance buffer_distance).

Lemma far_end_cases current_node s t next :
  far_end current_node s t = Some next ->
  (current_node = xy s /\ next = t) \/ (current_node = xy t /\ next = s).
Proof.
  unfold far_end.
  destruct (coord_eqb current_node (xy s)) eqn:Hs.
  - intros H; inversion H; subst. left.
    split; [apply coord_eqb_eq; exact Hs | reflexivity].
  - destruct (coord_eqb current_node (xy t)) eqn:Ht; [|discriminate].
    intros H; inversion H; subst. right.
    split; [apply coord_eqb_eq; exact Ht | reflexivity].
Qed.

(** Examining an edge within the budget: the push and the buffer. *)
Lemma examine_edge_pushes current_distance current_node st j e s t next st' :
  nth_error (edges graph) j = Some e ->
  nth_error (vertices graph) (fromVertex e) = Some s ->
  nth_error (vertices graph) (toVertex e) = Some t ->
  far_end current_node s t = Some next ->
  current_distance + cost e <= max_distance ->
  examine_edge current_distance current_node st j = Returns st' ->
  max_distance <> 0
  /\ exists width,
       st' = SearchState
               (searched_list st)
               (searched_roads st
                ++ [BufferedLine s t width (current_distance + cost e)])
               (heappush (priority_queue st)
                         (current_distance + cost e, xy next)).
Proof.
  intros He Hs Ht Hfar Hle.
  unfold AreaDataGenerator.examine_edge, edge, vertex_point.
  rewrite He. cbn [bind]. rewrite Hs, Ht. cbn [bind]. rewrite Hfar.
  rewrite push_guard_budget.
  replace (current_distance + cost e <=? max_distance) with true
    by (symmetry; apply Z.leb_le; exact Hle).
  unfold truediv. destruct (max_distance =? 0) eqn:Hz; [discriminate|].
  cbn [bind]. intros H; inversion H; subst.
  split; [apply Z.eqb_neq; exact Hz | eexists; reflexivity].
Qed.

(** What examining an edge can do, with the ends of the edge. *)
Lemma examine_edge_detail current_distance current_node st j st' :
  examine_edge current_distance current_node st j = Returns st' ->
  st' = st
  \/ exists e s t next width,
       edge_between graph e s t
       /\ ((current_node = xy s /\ next = t)
           \/ (current_node = xy t /\ next = s))
       /\ current_distance + cost e <= max_distance
       /\ max_distance <> 0
       /\ st' = SearchState
                  (searched_list st)
                  (searched_roads st
                   ++ [BufferedLine s t width (current_distance + cost e)])
                  (heappush (priority_queue st)
                            (current_distance + cost e, xy next)).
Proof.
  intros Hrun. pose proof Hrun as Hrun'. revert Hrun'.
  unfold AreaDataGenerator.examine_edge, edge, vertex_point.
  destruct (nth_error (edges graph) j) as [e|] eqn:He; [|discriminate].
  cbn [bind].
  destruct (nth_error (vertices graph) (fromVertex e)) as [s|] eqn:Hs;
    [|discriminate].
  destruct (nth_error (vertices graph) (toVertex e)) as [t|] eqn:Ht;
    [|discriminate].
  cbn [bind].
  destruct (far_end current_node s t) as [next|] eqn:Hfar.
  2:{ intros H; inversion H; left; reflexivity. }
  rewrite push_guard_budget.
  destruct (current_distance + cost e <=? max_distance) eqn:Hle.
  2:{ intros H; inversion H; left; reflexivity. }
  intros _. apply Z.leb_le in Hle.
  destruct (examine_edge_pushes _ _ _ _ _ _ _ _ _ He Hs Ht Hfar Hle Hrun)
    as (Hnz & w & ->).
  right. exists e, s, t, next, w.
  split; [|split; [apply far_end_cases; exact Hfar
                  | split; [exact Hle | split; [exact Hnz|]]]].
  - split; [eapply nth_error_In; exact He | split; assumption].
  - reflexivity.
Qed.

(** Properties of the entries pushed and of the buffers emitted by the edges
    of one vertex. *)
Lemma examine_edges_forall (Pq : entry -> Prop) (Pr : buffered_line -> Prop)
  current_distance current_node :
  (forall e s t next width,
     edge_between graph e s t ->
     (current_node = xy s /\ next = t) \/ (current_node = xy t /\ next = s) ->
     current_distance + cost e <= max_distance ->
     max_distance <> 0 ->
     Pq (current_distance + cost e, xy next)
     /\ Pr (BufferedLine s t width (current_distance + cost e))) ->
  forall js st st',
    for_each (examine_edge current_distance current_node) js st = Returns st' ->
    Forall Pq (priority_queue st) -> Forall Pr (searched_roads st) ->
    Forall Pq (priority_queue st') /\ Forall Pr (searched_roads st').
Proof.
  intros Hnew. induction js as [|j js IH]; intros st st' Hrun Hq Hr;
    simpl in Hrun.
  - inversion Hrun; subst. auto.
  - destruct (examine_edge current_distance current_node st j)
      as [st1|] eqn:H1; [|discriminate].
    cbn [bind] in Hrun. apply (IH _ _ Hrun).
    + destruct (examine_edge_detail _ _ _ _ _ H1)
        as [-> | (e & s & t & next & w & Hedge & Hends & Hle & Hnz & ->)];
        [exact Hq|].
      simpl. apply Forall_forall. intros it Hit.
      apply heappush_In in Hit. destruct Hit as [-> | Hit].
      * apply (Hnew e s t next w Hedge Hends Hle Hnz).
      * rewrite Forall_forall in Hq. apply Hq. exact Hit.
    + destruct (examine_edge_detail _ _ _ _ _ H1)
        as [-> | (e & s & t & next & w & Hedge & Hends & Hle & Hnz & ->)];
        [exact Hr|].
      simpl. apply Forall_app. split; [exact Hr|].
      constructor; [|constructor].
      apply (Hnew e s t next w Hedge Hends Hle Hnz).
Qed.

(** The same for one iteration of the loop. *)
Lemma while_body_forall (Pq : entry -> Prop) (Pr : buffered_line -> Prop)
  st st' current_distance current_node queue :
  priority_queue st = (current_distance, current_node) :: queue ->
  while_body st = Returns st' ->
  (forall e s t next width,
     edge_between graph e s t ->
     (current_node = xy s /\ next = t) \/ (current_node = xy t /\ next = s) ->
     current_distance <= max_distance ->
     current_distance + cost e <= max_distance ->
     max_distance <> 0 ->
     Pq (current_distance + cost e, xy next)
     /\ Pr (BufferedLine s t width (current_distance + cost e))) ->
  Forall Pq queue -> Forall Pr (searched_roads st) ->
  Forall Pq (priority_queue st') /\ Forall Pr (searched_roads st').
Proof.
  intros Hq Hrun Hnew HPq HPr. revert Hrun.
  unfold AreaDataGenerator.while_body. rewrite Hq. cbn [heappop].
  destruct (branch_of graph max_distance (searched_list st)
                      (current_distance, current_node)) as [| | |v] eqn:Hb;
    [intros H; inversion H; subst; simpl; auto ..|].
  apply branch_of_Expand in Hb. destruct Hb as (_ & Hbudget & _).
  intros Hrun.
  apply (examine_edges_forall Pq Pr current_distance current_node)
    with (js := outgoingEdges graph v ++ incomingEdges graph v)
         (st := SearchState (set_add current_node (searched_list st))
                            (searched_roads st) queue);
    auto.
Qed.

(** The edges of one vertex only add to the queue and to the buffers. *)
Lemma examine_edges_grow current_distance current_node js : forall st st',
  for_each (examine_edge current_distance current_node) js st = Returns st' ->
  searched_list st' = searched_list st
  /\ incl (searched_roads st) (searched_roads st')
  /\ incl (priority_queue st) (priority_queue st').
Proof.
  induction js as [|j js IH]; intros st st' Hrun; simpl in Hrun.
  - inversion Hrun; subst. repeat split; apply incl_refl.
  - destruct (examine_edge current_distance current_node st j)
      as [st1|] eqn:H1; [|discriminate].
    cbn [bind] in Hrun. destruct (IH _ _ Hrun) as (Hs & Hr & Hq).
    destruct (examine_edge_detail _ _ _ _ _ H1)
      as [-> | (e & s & t & next & w & _ & _ & _ & _ & ->)];
      [auto|].
    simpl in *. split; [exact Hs|]. split.
    + intros b Hb. apply Hr. apply in_or_app. left; exact Hb.
    + intros it Hit. apply Hq. apply heappush_In. right; exact Hit.
Qed.

(** Each edge in the list is examined, from a state of the [for] loop. *)
Lemma examine_edges_at current_distance current_node js j : forall st st',
  for_each (examine_edge current_distance current_node) js st = Returns st' ->
  In j js ->
  exists st1 st2,
    examine_edge current_distance current_node st1 j = Returns st2
    /\ incl (searched_roads st2) (searched_roads st')
    /\ incl (priority_queue st2) (priority_queue st').
Proof.
  induction js as [|j' js IH]; intros st st' Hrun Hin; [contradiction|].
  simpl in Hrun.
  destruct (examine_edge current_distance current_node st j')
    as [st1|] eqn:H1; [|discriminate].
  cbn [bind] in Hrun. destruct Hin as [-> | Hin].
  - exists st, st1. split; [exact H1|].
    destruct (examine_edges_grow _ _ _ _ _ Hrun) as (_ & Hr & Hq). auto.
  - apply (IH _ _ Hrun Hin).
Qed.

(** The marks, the buffers and the waiting entries after one iteration. *)
Lemma while_body_grow st st' current_distance current_node queue :
  priority_queue st = (current_distance, current_node) :: queue ->
  while_body st = Returns st' ->
  searched_list st'
  = (if py_in (PyTuple current_node) (searched_list st)
     then searched_list st
     else set_add current_node (searched_list st))
  /\ incl (searched_roads st) (searched_roads st')
  /\ incl queue (priority_queue st').
Proof.
  intros Hq. unfold AreaDataGenerator.while_body. rewrite Hq. cbn [heappop].
  unfold branch_of.
  destruct (py_in (PyTuple current_node) (searched_list st)) eqn:Hin.
  - intros H; inversion H; subst; simpl. repeat split; apply incl_refl.
  - destruct (max_distance <? current_distance).
    + intros H; inversion H; subst; simpl. repeat split; apply incl_refl.
    + destruct (findVertex graph _) as [v|].
      * intros Hrun. apply examine_edges_grow in Hrun. exact Hrun.
      * intros H; inversion H; subst; simpl. repeat split; apply incl_refl.
Qed.

Lemma steps_trans st1 st2 st3 :
  steps st1 st2 -> steps st2 st3 -> steps st1 st3.
Proof.
  induction 1 as [|st st1 st2 Hne Hbody Hsteps IH]; [auto|].
  intros H. eapply steps_iteration; eauto.
Qed.

Lemma steps_grow st st' :
  steps st st' ->
  incl (searched_roads st) (searched_roads st')
  /\ incl (searched_list st) (searched_list st').
Proof.
  induction 1 as [|st st1 st2 Hne Hbody Hsteps IH];
    [split; apply incl_refl|].
  pop_head st d c q Hq.
  destruct (while_body_grow _ _ _ _ _ Hq Hbody) as (Hs & Hr & _).
  destruct IH as [IHr IHs]. split.
  - eapply incl_tran; eassumption.
  - eapply incl_tran; [|exact IHs]. rewrite Hs.
    destruct (py_in (PyTuple c) (searched_list st)); [apply incl_refl|].
    intros a Ha. apply set_add_incl. exact Ha.
Qed.

(** A loop that returns is a run that ends with an empty queue. *)
Lemma while_priority_queue_steps fuel : forall st fin,
  while_priority_queue fuel st = Some (Returns fin) ->
  steps st fin /\ priority_queue fin = [].
Proof.
  induction fuel as [|fuel IH]; intros st fin Hrun; simpl in Hrun.
  - destruct (priority_queue st) eqn:Hq; [|discriminate].
    inversion Hrun; subst. split; [apply steps_here | exact Hq].
  - destruct (priority_queue st) as [|it q] eqn:Hq.
    + inversion Hrun; subst. split; [apply steps_here | exact Hq].
    + destruct (while_body st) as [st1|err] eqn:Hbody; [|discriminate].
      destruct (IH _ _ Hrun) as [Hsteps Hfin]. split; [|exact Hfin].
      eapply steps_iteration; [rewrite Hq; discriminate | exact Hbody
                              | exact Hsteps].
Qed.

Lemma reachable_steps start_points st st' :
  reachable graph max_distance buffer_distance start_points st ->
  steps st st' ->
  reachable graph max_distance buffer_distance start_points st'.
Proof.
  intros Hreach Hsteps. induction Hsteps as [|st st1 st2 Hne Hbody _ IH];
    [exact Hreach|].
  apply IH. eapply reachable_iteration; eassumption.
Qed.

End SearchDetail.

(** X6.  Every buffer that the search returns lies along an edge of the
    graph, from the point of the edge's first vertex to the point of its
    second one; one end of that edge can be walked to from a start point
    within the budget, and the buffer's distance is that walk followed by
    the edge, still within the budget. *)
Theorem emitted_buffers_follow_walkable_edges (graph : QgsGraph)
  (max_distance buffer_distance : Z) (start_points : list QgsPointXY)
  (fin : search_state) (b : buffered_line) :
  search graph max_distance buffer_distance start_points = Some (Returns fin) ->
  In b (searched_roads fin) ->
  exists e c d,
    edge_between graph e (line_start b) (line_end b)
    /\ walkable graph start_points max_distance c d
    /\ (c = xy (line_start b) \/ c = xy (line_end b))
    /\ at_distance b = d + cost e
    /\ at_distance b <= max_distance.
Proof.
  intros Hrun Hb.
  set (Pq := fun it : entry =>
               walkable graph start_points max_distance (snd it) (fst it)).
  set (Pr := fun b : buffered_line =>
               exists e c d,
                 edge_between graph e (line_start b) (line_end b)
                 /\ walkable graph start_points max_distance c d
                 /\ (c = xy (line_start b) \/ c = xy (line_end b))
                 /\ at_distance b = d + cost e
                 /\ at_distance b <= max_distance).
  destruct (while_priority_queue_invariant graph max_distance buffer_distance
              (fun st => Forall Pq (priority_queue st)
                         /\ Forall Pr (searched_roads st)))
    with (fuel := pop_bound graph start_points)
         (st := initial_state start_points) (st' := fin) as [[_ Hroads] _].
  - intros st st' [Hq Hr] Hne Hbody. pop_head st d c q Hst.
    inversion Hq as [|? ? Hhead Htail]; subst.
    apply (while_body_forall graph max_distance buffer_distance Pq Pr
                             st st' d c q Hst Hbody); [|assumption..].
    intros e s t next w Hedge Hends _ Hle _. unfold Pq, Pr. simpl. split.
    + apply (walkable_edge _ _ _ c d e s t); [exact Hhead | exact Hedge | | exact Hle].
      destruct Hends as [[-> ->] | [-> ->]]; auto.
    + exists e, c, d. repeat split; try assumption; try apply Hedge.
      destruct Hends as [[-> _] | [-> _]]; auto.
  - split; [|constructor]. apply Forall_forall. intros it Hit.
    unfold initial_state in Hit. simpl in Hit.
    apply (proj1 (heapify_In _ _)) in Hit. apply in_map_iff in Hit.
    destruct Hit as (start & <- & Hstart). unfold Pq. simpl.
    apply (walkable_start _ _ _ start Hstart).
  - exact Hrun.
  - rewrite Forall_forall in Hroads. apply Hroads. exact Hb.
Qed.

(** The split road: the buffer of the third segment emitted at 300. *)
Lemma emitted_buffers_follow_walkable_edges_witness :
  exists e c d,
    edge_between split_graph e (PointXY 200 0) (PointXY 300 0)
    /\ walkable split_graph [seed] 500 c d
    /\ (c = (200, 0) \/ c = (300, 0))
    /\ 300 = d + cost e.
Proof.
  destruct (emitted_buffers_follow_walkable_edges
              split_graph 500 200 [seed] split_road_result
              (split_buffer 2 300) split_road_search)
    as (e & c & d & He & Hw & Hc & Hd & _).
  - simpl. tauto.
  - exists e, c, d. repeat split; try assumption; apply He.
Defined.

Section AscendingPops.

Lemma entry_leb_fst (a b : entry) : entry_leb a b = true -> fst a <= fst b.
Proof.
  destruct a as [d1 [x1 y1]], b as [d2 [x2 y2]]. unfold entry_leb. simpl.
  intros H. apply orb_true_iff in H. destruct H as [H | H].
  - apply Z.ltb_lt in H. lia.
  - apply andb_true_iff in H. destruct H as [H _]. apply Z.eqb_eq in H. lia.
Qed.

Lemma queue_sorted_head (q : list entry) : forall it,
  queue_sorted (it :: q) -> forall it', In it' q -> fst it <= fst it'.
Proof.
  unfold queue_sorted. induction q as [|a q IH]; intros it Hs it' Hin;
    [contradiction|].
  inversion Hs as [|? ? Hrest Hhd]; subst.
  inversion Hhd as [|? ? Hle]; subst. apply entry_leb_fst in Hle.
  destruct Hin as [<- | Hin]; [exact Hle|].
  specialize (IH a Hrest it' Hin). lia.
Qed.

(** After an iteration that popped the distance [d], nothing in the queue
    is below [d]. *)
Lemma iteration_floor (graph : QgsGraph) (max_distance buffer_distance : Z)
  (start_points : list QgsPointXY) (st st' : search_state) (d : Z) (c : coord)
  (queue : list entry) :
  (forall e, In e (edges graph) -> 0 <= cost e) ->
  reachable graph max_distance buffer_distance start_points st ->
  priority_queue st = (d, c) :: queue ->
  while_body graph max_distance buffer_distance st = Returns st' ->
  forall it, In it (priority_queue st') -> d <= fst it.
Proof.
  intros Hcost Hreach Hq Hbody it Hit.
  pose proof (reachable_queue_sorted _ _ _ _ _ Hreach) as Hsorted.
  rewrite Hq in Hsorted.
  destruct (while_body_effect _ _ _ _ _ _ _ _ Hq Hbody) as (Hitems & _ & _).
  destruct (Hitems it Hit) as [Hold | (e & He & -> & _)].
  - apply (queue_sorted_head queue (d, c) Hsorted it Hold).
  - specialize (Hcost e He). lia.
Qed.

End AscendingPops.

(** X7.  When no edge weighs less than zero, the loop pops the entries in
    ascending order of distance: after an iteration that popped the
    distance [d], no entry of the queue is below [d]. *)
Theorem pops_in_ascending_order (graph : QgsGraph)
  (max_distance buffer_distance : Z) (start_points : list QgsPointXY)
  (st st' : search_state) (d : Z) (c : coord) (queue : list entry) :
  (forall e, In e (edges graph) -> 0 <= cost e) ->
  reachable graph max_distance buffer_distance start_points st ->
  priority_queue st = (d, c) :: queue ->
  while_body graph max_distance buffer_distance st = Returns st' ->
  forall it, In it (priority_queue st') -> d <= fst it.
Proof. apply iteration_floor. Qed.

(** The first iteration on the split road. *)
Lemma pops_in_ascending_order_witness :
  0 <= fst ((100, (100, 0)) : entry).
Proof.
  apply (pops_in_ascending_order split_graph 500 200 [seed]
           (initial_state [seed])
           (SearchState [(0, 0)] [split_buffer 0 100] [(100, (100, 0))])
           0 (0, 0) []).
  - intros e He. pose proof (split_graph_positive e He). lia.
  - apply reachable_initial.
  - reflexivity.
  - vm_compute. reflexivity.
  - left. reflexivity.
Defined.

Section NonZeroBudget.

Variable graph : QgsGraph.
Variable max_distance : Z.
Variable buffer_distance : Z.
Hypothesis graph_ok : graph_wf graph.
Hypothesis budget_not_zero : max_distance <> 0.


End NonZeroBudget.

Lemma builder_returns_measured (roads : list QgsGeometry) :
  Forall is_line_geometry roads ->
  exists g,
    extract_road_nodes roads = Returns g
    /\ edges_measured g
    /\ NoDup (vertices g).
Proof.
  intros Hall.
  destruct (add_features_edges roads (BuilderState empty_graph [] 0) Hall
                               builder_inv_empty)
    as (st & Hrun & Hinv & Hm & _).
  { intros e []. }
  exists (builder st). unfold extract_road_nodes. rewrite Hrun. cbn [bind].
  split; [reflexivity|]. split; [exact Hm|].
  apply builder_inv_NoDup. exact Hinv.
Qed.




(** ** The edges at a vertex, and the zero budget *)

Section Incident.

Variable graph : QgsGraph.
Variable max_distance : Z.
Variable buffer_distance : Z.

#[local] Abbreviation examine_edge :=
  (examine_edge graph max_distance buffer_distance).
#[local] Abbreviation while_body :=
  (while_body graph max_distance buffer_distance).
#[local] Abbreviation while_priority_queue :=
  (while_priority_queue graph max_distance buffer_distance).

Lemma find_from_nth pt vs : forall i v,
  find_from pt i vs = Some v ->
  (i <= v)%nat /\ nth_error vs (v - i) = Some pt.
Proof.
  induction vs as [|p vs IH]; intros i v H; simpl in H; [discriminate|].
  destruct (point_eqb p pt) eqn:E.
  - inversion H; subst. apply point_eqb_eq in E. subst.
    rewrite Nat.sub_diag. split; [lia | reflexivity].
  - destruct (IH _ _ H) as [Hle Hnth]. split; [lia|].
    replace (v - i)%nat with (S (v - S i)) by lia. exact Hnth.
Qed.

Lemma findVertex_point pt v :
  findVertex graph pt = Some v -> nth_error (vertices graph) v = Some pt.
Proof.
  intros H. apply find_from_nth in H. destruct H as [_ H].
  rewrite Nat.sub_0_r in H. exact H.
Qed.

Lemma edge_ids_test f es : forall k j e,
  In j (edge_ids f k es) -> nth_error es (j - k) = Some e -> f e = true.
Proof.
  intros k j e Hin He. destruct (edge_ids_valid f es k j Hin)
    as (_ & e' & He' & Hf). congruence.
Qed.

Lemma edge_ids_complete f es : forall k j e,
  nth_error es j = Some e -> f e = true -> In (j + k)%nat (edge_ids f k es).
Proof.
  induction es as [|a es IH]; intros k j e He Hf; [destruct j; discriminate|].
  destruct j as [|j]; simpl in He.
  - inversion He; subst. simpl. rewrite Hf. left; reflexivity.
  - specialize (IH (S k) j e He Hf).
    replace (j + S k)%nat with (S j + k)%nat in IH by lia.
    cbn [edge_ids]. destruct (f a); [right|]; exact IH.
Qed.

(** Seen from the vertex found at [c], an incident edge has a far end. *)
Lemma incident_far_end c v j e s t :
  findVertex graph (PointXY (fst c) (snd c)) = Some v ->
  In j (outgoingEdges graph v ++ incomingEdges graph v) ->
  nth_error (edges graph) j = Some e ->
  nth_error (vertices graph) (fromVertex e) = Some s ->
  nth_error (vertices graph) (toVertex e) = Some t ->
  exists next, far_end c s t = Some next.
Proof.
  intros Hv Hj He Hs Ht. apply findVertex_point in Hv.
  assert (Hc : forall p, PointXY (fst c) (snd c) = p -> coord_eqb c (xy p) = true).
  { intros p <-. apply coord_eqb_eq. destruct c; reflexivity. }
  unfold far_end. apply in_app_or in Hj. destruct Hj as [Hj | Hj].
  - apply (edge_ids_test _ _ 0 j e) in Hj;
      [|rewrite Nat.sub_0_r; exact He].
    apply Nat.eqb_eq in Hj. rewrite Hj, Hv in Hs. inversion Hs; subst s.
    rewrite (Hc _ eq_refl). eauto.
  - apply (edge_ids_test _ _ 0 j e) in Hj;
      [|rewrite Nat.sub_0_r; exact He].
    apply Nat.eqb_eq in Hj. rewrite Hj, Hv in Ht. inversion Ht; subst t.
    destruct (coord_eqb c (xy s)); [eauto|].
    rewrite (Hc _ eq_refl). eauto.
Qed.

(** The iteration that marks a vertex examines its edges. *)
Lemma while_body_expands st d c queue v :
  priority_queue st = (d, c) :: queue ->
  py_in (PyTuple c) (searched_list st) = false ->
  d <= max_distance ->
  findVertex graph (PointXY (fst c) (snd c)) = Some v ->
  while_body st
  = for_each (examine_edge d c)
             (outgoingEdges graph v ++ incomingEdges graph v)
             (SearchState (set_add c (searched_list st))
                          (searched_roads st) queue).
Proof.
  intros Hq Hin Hd Hv. unfold AreaDataGenerator.while_body.
  rewrite Hq. cbn [heappop]. unfold branch_of. rewrite Hin.
  replace (max_distance <? d) with false
    by (symmetry; apply Z.ltb_ge; exact Hd).
  rewrite Hv. reflexivity.
Qed.

Hypothesis graph_ok : graph_wf graph.

(** On a well-formed graph the division is all that can raise. *)
Lemma examine_edge_raises current_distance current_node st j e err :
  nth_error (edges graph) j = Some e ->
  examine_edge current_distance current_node st j = Raises err ->
  err = ZeroDivisionError /\ max_distance = 0.
Proof.
  intros He. destruct (wf_edge_points graph graph_ok j e He)
    as (s & t & Hs & Ht).
  unfold AreaDataGenerator.examine_edge, edge, vertex_point.
  rewrite He. cbn [bind]. rewrite Hs, Ht. cbn [bind].
  destruct (far_end current_node s t); [|discriminate].
  rewrite push_guard_budget.
  destruct (current_distance + cost e <=? max_distance); [|discriminate].
  unfold truediv. destruct (max_distance =? 0) eqn:Hz; [|discriminate].
  cbn [bind]. intros H; inversion H. apply Z.eqb_eq in Hz. auto.
Qed.

Lemma examine_edges_raise current_distance current_node js err :
  (forall j, In j js -> exists e, nth_error (edges graph) j = Some e) ->
  forall st,
    for_each (examine_edge current_distance current_node) js st = Raises err ->
    err = ZeroDivisionError /\ max_distance = 0.
Proof.
  induction js as [|j js IH]; intros Hjs st Hrun; simpl in Hrun;
    [discriminate|].
  destruct (examine_edge current_distance current_node st j)
    as [st1|err1] eqn:H1; cbn [bind] in Hrun.
  - apply (IH (fun j' Hj' => Hjs j' (or_intror Hj')) st1 Hrun).
  - inversion Hrun; subst err1.
    destruct (Hjs j (or_introl eq_refl)) as (e & He).
    apply (examine_edge_raises _ _ _ _ _ _ He H1).
Qed.

Lemma while_body_raises st err :
  while_body st = Raises err ->
  err = ZeroDivisionError /\ max_distance = 0.
Proof.
  unfold AreaDataGenerator.while_body.
  destruct (heappop (priority_queue st)) as [[[d c] q]|]; [|discriminate].
  destruct (branch_of graph max_distance (searched_list st) (d, c))
    as [| | |v]; try discriminate.
  apply examine_edges_raise. intros j Hj.
  apply (incident_edges_valid graph v j Hj).
Qed.

Lemma while_priority_queue_raises fuel : forall st err,
  while_priority_queue fuel st = Some (Raises err) ->
  err = ZeroDivisionError /\ max_distance = 0.
Proof.
  induction fuel as [|fuel IH]; intros st err Hrun; simpl in Hrun.
  - destruct (priority_queue st); discriminate.
  - destruct (priority_queue st); [discriminate|].
    destruct (while_body st) as [st1|err1] eqn:Hbody.
    + apply (IH _ _ Hrun).
    + inversion Hrun; subst err1. apply (while_body_raises _ _ Hbody).
Qed.

End Incident.

Section ZeroBudget.

Variable graph : QgsGraph.
Variable buffer_distance : Z.
Variable start_points : list QgsPointXY.
Variable start : QgsPointXY.
Variables (v j : nat) (e : QgsGraphEdge).
Hypothesis graph_ok : graph_wf graph.
Hypothesis start_given : In start start_points.
Hypothesis start_found : findVertex graph start = Some v.
Hypothesis edge_there : In j (outgoingEdges graph v ++ incomingEdges graph v).
Hypothesis edge_j : nth_error (edges graph) j = Some e.
Hypothesis no_length : cost e <= 0.

(** The start point still waits in a queue of start points. *)
Let waiting (st : search_state) : Prop :=
  Forall (fun it => fst it = 0) (priority_queue st)
  /\ In (0, xy start) (priority_queue st)
  /\ py_in (PyTuple (xy start)) (searched_list st) = false.

Lemma waiting_initial : waiting (initial_state start_points).
Proof.
  unfold waiting, initial_state. simpl. split; [|split; [|reflexivity]].
  - apply Forall_forall. intros it Hit.
    apply (proj1 (heapify_In _ _)) in Hit. apply in_map_iff in Hit.
    destruct Hit as (s & <- & _). reflexivity.
  - apply heapify_In. apply in_map_iff. exists start.
    split; [reflexivity | exact start_given].
Qed.

Lemma waiting_iteration st st' :
  waiting st -> priority_queue st <> [] ->
  while_body graph 0 buffer_distance st = Returns st' -> waiting st'.
Proof.
  intros (Hzero & Hin & Hnot) Hne Hbody. pop_head st d c q Hq.
  inversion Hzero as [|? ? Hd Hrest]; subst. simpl in Hd. subst d.
  destruct (coord_eqb c (xy start)) eqn:Hc.
  - exfalso. apply coord_eqb_eq in Hc. subst c.
    assert (Hv : findVertex graph (PointXY (fst (xy start)) (snd (xy start)))
                 = Some v) by (rewrite point_of_xy; exact start_found).
    rewrite (while_body_expands graph 0 buffer_distance st 0 (xy start) q v
                                Hq Hnot (Z.le_refl 0) Hv) in Hbody.
    destruct (examine_edges_at graph 0 buffer_distance 0 (xy start) _ j _ _
                               Hbody edge_there)
      as (st1 & st2 & Hexam & _).
    destruct (wf_edge_points graph graph_ok j e edge_j) as (s & t & Hs & Ht).
    destruct (incident_far_end graph (xy start) v j e s t Hv edge_there
                               edge_j Hs Ht) as (next & Hfar).
    destruct (examine_edge_pushes graph 0 buffer_distance 0 (xy start) st1 j
                                  e s t next st2 edge_j Hs Ht Hfar)
      as (Hnz & _); [lia | exact Hexam | congruence].
  - assert (Hq' : In (0, xy start) q).
    { destruct Hin as [H | H]; [|exact H]. inversion H; subst.
      rewrite (proj2 (coord_eqb_eq _ _) eq_refl) in Hc. discriminate. }
    destruct (while_body_grow graph 0 buffer_distance _ _ _ _ _ Hq Hbody)
      as (Hs & _ & Hincl).
    destruct (while_body_forall graph 0 buffer_distance
                (fun it => fst it = 0) (fun _ => True) st st' 0 c q Hq Hbody)
      as [Hall _].
    { intros ? ? ? ? ? _ _ _ _ Hnz. congruence. }
    { exact Hrest. }
    { apply Forall_forall. intros; exact I. }
    split; [exact Hall|]. split; [apply Hincl; exact Hq'|].
    rewrite Hs. destruct (py_in (PyTuple c) (searched_list st));
      [exact Hnot|].
    rewrite py_in_set_add, Hnot. simpl.
    destruct (coord_eqb (xy start) c) eqn:Hc'; [|reflexivity].
    apply coord_eqb_eq in Hc'. subst c.
    rewrite (proj2 (coord_eqb_eq _ _) eq_refl) in Hc. discriminate.
Qed.

Lemma zero_budget_search_raises :
  search graph 0 buffer_distance start_points
  = Some (Raises ZeroDivisionError).
Proof.
  unfold search.
  destruct (while_priority_queue_terminates graph 0 buffer_distance
              (pop_bound graph start_points) (initial_state start_points)
              (variant_initial graph start_points)) as (r & Hr).
  rewrite Hr. destruct r as [fin|err].
  - exfalso.
    destruct (while_priority_queue_invariant graph 0 buffer_distance waiting
                waiting_iteration _ _ _ waiting_initial Hr)
      as [(_ & Hin & _) Hempty].
    rewrite Hempty in Hin. exact Hin.
  - destruct (while_priority_queue_raises graph 0 buffer_distance graph_ok
                                          _ _ _ Hr) as [-> _].
    reflexivity.
Qed.

End ZeroBudget.

(** X9.  With the budget 0, a start point that is a vertex with an edge of
    no length (a line with the same point twice in a row gives one) makes
    the search raise [ZeroDivisionError]: the edge is within the budget and
    the buffer width is divided by the budget. *)
Theorem dijkstra_zero_budget_raises
  (union_class : list buffered_line -> geometry_class) (graph : QgsGraph)
  (buffer_distance : Z) (start_points : list QgsPointXY) (start : QgsPointXY)
  (v j : nat) (e : QgsGraphEdge) :
  graph_wf graph ->
  In start start_points ->
  findVertex graph start = Some v ->
  In j (outgoingEdges graph v ++ incomingEdges graph v) ->
  nth_error (edges graph) j = Some e ->
  cost e <= 0 ->
  dijkstra union_class graph 0 buffer_distance start_points
  = Some (Raises ZeroDivisionError).
Proof.
  intros Hwf Hstart Hv Hj He Hcost. unfold dijkstra.
  rewrite (zero_budget_search_raises graph buffer_distance start_points
             start v j e Hwf Hstart Hv Hj He Hcost).
  reflexivity.
Qed.

(** A road whose polyline repeats its first point, budget 0. *)
Lemma dijkstra_zero_budget_raises_witness :
  extract_road_nodes [LineString [PointXY 0 0; PointXY 0 0; PointXY 100 0]]
  = Returns (Graph [PointXY 0 0; PointXY 100 0]
                   [GraphEdge 0 0 0; GraphEdge 0 1 100])
  /\ dijkstra (fun _ => Polygon)
              (Graph [PointXY 0 0; PointXY 100 0]
                     [GraphEdge 0 0 0; GraphEdge 0 1 100])
              0 200 [seed]
     = Some (Raises ZeroDivisionError).
Proof.
  split; [reflexivity|].
  apply (dijkstra_zero_budget_raises _ _ 200 [seed] seed 0%nat 0%nat
                                     (GraphEdge 0 0 0)).
  - unfold graph_wf, vertexCount. simpl. repeat constructor.
  - left; reflexivity.
  - reflexivity.
  - simpl. auto.
  - reflexivity.
  - simpl. lia.
Defined.

(** ** Every edge within reach is buffered *)

Section Coverage.

Variable graph : QgsGraph.
Variable max_distance : Z.
Variable buffer_distance : Z.
Variable start_points : list QgsPointXY.
Hypothesis weights_ok : forall e, In e (edges graph) -> 0 <= cost e.

#[local] Abbreviation while_body :=
  (while_body graph max_distance buffer_distance).
#[local] Abbreviation steps := (steps graph max_distance buffer_distance).
#[local] Abbreviation reachable :=
  (reachable graph max_distance buffer_distance start_points).
#[local] Abbreviation marked_at :=
  (marked_at graph max_distance buffer_distance start_points).

Lemma steps_floor d st st' :
  (forall it, In it (priority_queue st) -> d <= fst it) ->
  steps st st' ->
  forall it, In it (priority_queue st') -> d <= fst it.
Proof.
  intros Hfloor Hsteps. induction Hsteps as [|st st1 st2 Hne Hbody _ IH];
    [exact Hfloor|].
  apply IH. pop_head st dh ch q Hq. intros it Hit.
  destruct (while_body_effect _ _ _ _ _ _ _ _ Hq Hbody) as (Hitems & _ & _).
  destruct (Hitems it Hit) as [Hold | (e & He & -> & _)].
  - apply Hfloor. right; exact Hold.
  - specialize (weights_ok e He).
    specialize (Hfloor (dh, ch) (or_introl eq_refl)). simpl in Hfloor. lia.
Qed.

(** Once a coordinate has been marked at [d], nothing below [d] waits. *)
Lemma marked_at_floor c d st :
  marked_at c d st -> forall it, In it (priority_queue st) -> d <= fst it.
Proof.
  intros (sa & sb & q & Hreach & Hq & _ & Hbody & Hsteps).
  apply (steps_floor d sb st); [|exact Hsteps].
  apply (iteration_floor graph max_distance buffer_distance start_points
                         sa sb d c q weights_ok Hreach Hq Hbody).
Qed.

Lemma marked_at_later c d st st' :
  marked_at c d st -> steps st st' -> marked_at c d st'.
Proof.
  intros (sa & sb & q & Hreach & Hq & Hnot & Hbody & Hsteps) Hmore.
  exists sa, sb, q. repeat split; try assumption.
  eapply steps_trans; eassumption.
Qed.

Lemma set_add_In c s a : In a (set_add c s) -> a = c \/ In a s.
Proof.
  unfold set_add. destruct (py_in (PyTuple c) s); simpl; [auto|].
  intros [<- | H]; auto.
Qed.

(** Every marked coordinate was marked by some iteration. *)
Lemma searched_marked_at st c :
  reachable st -> In c (searched_list st) -> exists d, marked_at c d st.
Proof.
  intros Hreach. induction Hreach as [|st st' Hreach IH Hne Hbody];
    [intros []|].
  intros Hin. pop_head st dh ch q Hq.
  destruct (while_body_grow _ _ _ _ _ _ _ _ Hq Hbody) as (Hs & _ & _).
  assert (Hstep : steps st st')
    by (eapply steps_iteration;
        [rewrite Hq; discriminate | exact Hbody | apply steps_here]).
  destruct (py_in (PyTuple c) (searched_list st)) eqn:Hold.
  - apply py_in_tuple in Hold. destruct (IH Hold) as (d & Hd).
    exists d. eapply marked_at_later; eassumption.
  - rewrite Hs in Hin.
    destruct (py_in (PyTuple ch) (searched_list st)) eqn:Hch.
    + apply py_in_tuple in Hin. congruence.
    + apply set_add_In in Hin. destruct Hin as [-> | Hin];
        [|apply py_in_tuple in Hin; congruence].
      exists dh, st, st', q. repeat split; try assumption. apply steps_here.
Qed.

(** An entry that waits in a run that empties the queue: its coordinate is
    marked at a distance that is not greater. *)
Lemma waiting_entry_marked st fin :
  steps st fin -> priority_queue fin = [] ->
  reachable st ->
  forall d c, In (d, c) (priority_queue st) ->
    exists d', d' <= d /\ marked_at c d' fin.
Proof.
  intros Hsteps Hfin. induction Hsteps as [|st st1 st2 Hne Hbody Hrest IH];
    intros Hreach d c Hin.
  - rewrite Hfin in Hin. contradiction.
  - pop_head st dh ch q Hq.
    assert (Hreach1 : reachable st1)
      by (eapply reachable_iteration;
          [exact Hreach | rewrite Hq; discriminate | exact Hbody]).
    destruct Hin as [Hhead | Htail].
    + inversion Hhead; subst dh ch.
      destruct (py_in (PyTuple c) (searched_list st)) eqn:Hold.
      * apply py_in_tuple in Hold.
        destruct (searched_marked_at st c Hreach Hold) as (d' & Hd').
        exists d'. split.
        -- apply (marked_at_floor c d' st Hd' (d, c)).
           rewrite Hq. left; reflexivity.
        -- apply (marked_at_later c d' st st2 Hd').
           eapply steps_iteration;
             [rewrite Hq; discriminate | exact Hbody | exact Hrest].
      * exists d. split; [lia|].
        exists st, st1, q. repeat split; assumption.
    + apply (IH Hfin Hreach1).
      destruct (while_body_grow _ _ _ _ _ _ _ _ Hq Hbody) as (_ & _ & Hincl).
      apply Hincl. exact Htail.
Qed.

Hypothesis one_vertex_per_point : NoDup (vertices graph).

Lemma find_from_NoDup p vs : forall i v,
  NoDup vs -> nth_error vs v = Some p -> find_from p i vs = Some (i + v)%nat.
Proof.
  induction vs as [|a vs IH]; intros i v Hnd Hv; [destruct v; discriminate|].
  inversion Hnd as [|? ? Hnotin Hnd']; subst.
  destruct v as [|v]; simpl in Hv.
  - inversion Hv; subst. simpl. rewrite point_eqb_refl. f_equal. lia.
  - simpl. destruct (point_eqb a p) eqn:E.
    + apply point_eqb_eq in E. subst a. exfalso. apply Hnotin.
      eapply nth_error_In; exact Hv.
    + rewrite (IH (S i) v Hnd' Hv). f_equal. lia.
Qed.

Lemma findVertex_NoDup p v :
  nth_error (vertices graph) v = Some p -> findVertex graph p = Some v.
Proof.
  intros Hv. unfold findVertex.
  rewrite (find_from_NoDup p (vertices graph) 0 v one_vertex_per_point Hv).
  reflexivity.
Qed.

(** The iteration that marks one end of an edge within the budget buffers
    the edge and puts the other end into the queue. *)
Lemma marked_end_buffers_edge c d c' e s t fin :
  marked_at c d fin ->
  edge_between graph e s t ->
  (c = xy s /\ c' = xy t) \/ (c = xy t /\ c' = xy s) ->
  d <= max_distance ->
  d + cost e <= max_distance ->
  (exists b, In b (searched_roads fin)
             /\ line_start b = s /\ line_end b = t
             /\ at_distance b = d + cost e)
  /\ exists sb, reachable sb /\ steps sb fin
                /\ In (d + cost e, c') (priority_queue sb).
Proof.
  intros (sa & sb & q & Hreach & Hq & Hnot & Hbody & Hsteps)
         (He & Hs & Ht) Hends Hd Hle.
  destruct (In_nth_error _ _ He) as (j & Hj).
  assert (Hreach_sb : reachable sb)
    by (eapply reachable_iteration;
        [exact Hreach | rewrite Hq; discriminate | exact Hbody]).
  assert (Hkey : exists v next,
             findVertex graph (PointXY (fst c) (snd c)) = Some v
             /\ In j (outgoingEdges graph v ++ incomingEdges graph v)
             /\ far_end c s t = Some next
             /\ xy next = c').
  { destruct Hends as [[Hc Hc'] | [Hc Hc']].
    - exists (fromVertex e), t. subst c c'. rewrite point_of_xy.
      split; [apply findVertex_NoDup; exact Hs|]. split.
      + apply in_or_app. left. unfold outgoingEdges.
        rewrite <- (Nat.add_0_r j).
        apply (edge_ids_complete _ _ 0 j e Hj). apply Nat.eqb_refl.
      + unfold far_end.
        rewrite (proj2 (coord_eqb_eq _ _) eq_refl). auto.
    - subst c c'. rewrite point_of_xy.
      destruct (coord_eqb (xy t) (xy s)) eqn:Hts.
      + exists (toVertex e), t.
        split; [apply findVertex_NoDup; exact Ht|]. split.
        * apply in_or_app. right. unfold incomingEdges.
          rewrite <- (Nat.add_0_r j).
          apply (edge_ids_complete _ _ 0 j e Hj). apply Nat.eqb_refl.
        * unfold far_end. rewrite Hts.
          split; [reflexivity | apply coord_eqb_eq; exact Hts].
      + exists (toVertex e), s.
        split; [apply findVertex_NoDup; exact Ht|]. split.
        * apply in_or_app. right. unfold incomingEdges.
          rewrite <- (Nat.add_0_r j).
          apply (edge_ids_complete _ _ 0 j e Hj). apply Nat.eqb_refl.
        * unfold far_end. rewrite Hts.
          rewrite (proj2 (coord_eqb_eq _ _) eq_refl). auto. }
  destruct Hkey as (v & next & Hv & Hjin & Hfar & Hnext).
  rewrite (while_body_expands graph max_distance buffer_distance sa d c q v
                              Hq Hnot Hd Hv) in Hbody.
  destruct (examine_edges_at graph max_distance buffer_distance d c _ j _ _
                             Hbody Hjin)
    as (st1 & st2 & Hexam & Hroads & Hqueue).
  destruct (examine_edge_pushes graph max_distance buffer_distance d c st1 j
                                e s t next st2 Hj Hs Ht Hfar Hle Hexam)
    as (_ & w & ->).
  simpl in Hroads, Hqueue.
  destruct (steps_grow graph max_distance buffer_distance sb fin Hsteps)
    as [Hgrow _].
  split.
  - exists (BufferedLine s t w (d + cost e)). split; [|auto].
    apply Hgrow, Hroads. apply in_or_app. right. left. reflexivity.
  - exists sb. split; [exact Hreach_sb|]. split; [exact Hsteps|].
    apply Hqueue. apply heappush_In. left. rewrite Hnext. reflexivity.
Qed.

(** Every coordinate within reach is marked no later than its walk says. *)
Lemma walkable_marked fin c d :
  search graph max_distance buffer_distance start_points = Some (Returns fin) ->
  walkable graph start_points max_distance c d ->
  exists d', d' <= d /\ marked_at c d' fin.
Proof.
  intros Hrun.
  destruct (while_priority_queue_steps graph max_distance buffer_distance
                                       _ _ _ Hrun) as [Hsteps Hfin].
  induction 1 as [start Hstart | c d e s t c' Hwalk IH Hedge Hends Hle].
  - apply (waiting_entry_marked _ fin Hsteps Hfin (reachable_initial _ _ _ _)).
    unfold initial_state. simpl. apply heapify_In. apply in_map_iff.
    exists start. split; [reflexivity | exact Hstart].
  - destruct IH as (d0 & Hd0 & Hmarked).
    assert (Hcost : 0 <= cost e) by (apply weights_ok; apply Hedge).
    destruct (marked_end_buffers_edge c d0 c' e s t fin Hmarked Hedge Hends)
      as (_ & sb & Hreach & Hsb & Hin); [lia | lia|].
    destruct (waiting_entry_marked sb fin Hsb Hfin Hreach _ _ Hin)
      as (d' & Hd' & Hmarked').
    exists d'. split; [lia | exact Hmarked'].
Qed.

Lemma walkable_edge_buffered fin c d e s t :
  search graph max_distance buffer_distance start_points = Some (Returns fin) ->
  walkable graph start_points max_distance c d ->
  edge_between graph e s t ->
  c = xy s \/ c = xy t ->
  d + cost e <= max_distance ->
  exists b, In b (searched_roads fin)
            /\ line_start b = s /\ line_end b = t
            /\ at_distance b <= d + cost e.
Proof.
  intros Hrun Hwalk Hedge Hc Hle.
  destruct (walkable_marked fin c d Hrun Hwalk) as (d0 & Hd0 & Hmarked).
  assert (Hcost : 0 <= cost e) by (apply weights_ok; apply Hedge).
  assert (Hends : exists c', (c = xy s /\ c' = xy t) \/ (c = xy t /\ c' = xy s)).
  { destruct Hc as [-> | ->]; eexists; [left | right]; split; reflexivity. }
  destruct Hends as (c' & Hends).
  destruct (marked_end_buffers_edge c d0 c' e s t fin Hmarked Hedge Hends)
    as ((b & Hb & Hs & Ht & Hat) & _); [lia | lia|].
  exists b. repeat split; try assumption. lia.
Qed.

End Coverage.

(** X10.  Coverage: on a graph with one vertex per point and no negative
    weight, a search that returns has buffered every edge that can be walked
    within the budget: if one end of an edge is walkable at the distance [d]
    and [d] plus the weight of the edge is within the budget, the result has
    a buffer along that edge, emitted at a distance that is not greater. *)
Theorem walkable_edges_are_buffered (graph : QgsGraph)
  (max_distance buffer_distance : Z) (start_points : list QgsPointXY)
  (fin : search_state) (c : coord) (d : Z) (e : QgsGraphEdge)
  (s t : QgsPointXY) :
  NoDup (vertices graph) ->
  (forall e', In e' (edges graph) -> 0 <= cost e') ->
  search graph max_distance buffer_distance start_points = Some (Returns fin) ->
  walkable graph start_points max_distance c d ->
  edge_between graph e s t ->
  c = xy s \/ c = xy t ->
  d + cost e <= max_distance ->
  exists b, In b (searched_roads fin)
            /\ line_start b = s /\ line_end b = t
            /\ at_distance b <= d + cost e.
Proof.
  intros Hnodup Hcost. apply walkable_edge_buffered; assumption.
Qed.

(** The split road: the vertex at 200 m is walkable at 200, so the segment
    from 200 m to 300 m is buffered at 300 or before. *)
Lemma walkable_edges_are_buffered_witness :
  exists b, In b (searched_roads split_road_result)
            /\ line_start b = PointXY 200 0 /\ line_end b = PointXY 300 0
            /\ at_distance b <= 200 + 100.
Proof.
  assert (Hedge : forall i : nat,
             (i < 10)%nat ->
             edge_between split_graph (GraphEdge i (S i) 100)
                          (PointXY (100 * Z.of_nat i) 0)
                          (PointXY (100 * Z.of_nat (S i)) 0)).
  { intros i Hi.
    do 10 (destruct i as [|i]; [repeat split; simpl; tauto|]). lia. }
  apply (walkable_edges_are_buffered split_graph 500 200 [seed]
           split_road_result (200, 0) (100 + 100) (GraphEdge 2 3 100)
           (PointXY 200 0) (PointXY 300 0)).
  - unfold split_graph. simpl. repeat constructor; simpl; intuition discriminate.
  - intros e He. pose proof (split_graph_positive e He). lia.
  - exact split_road_search.
  - apply (walkable_edge split_graph [seed] 500 (100, 0) 100
                          (GraphEdge 1 2 100) (PointXY 100 0) (PointXY 200 0)).
    + apply (walkable_edge split_graph [seed] 500 (0, 0) 0
                            (GraphEdge 0 1 100) (PointXY 0 0) (PointXY 100 0)).
      * apply (walkable_start split_graph [seed] 500 seed). left; reflexivity.
      * apply (Hedge 0%nat). lia.
      * left. split; reflexivity.
      * simpl. lia.
    + apply (Hedge 1%nat). lia.
    + left. split; reflexivity.
    + simpl. lia.
  - apply (Hedge 2%nat). lia.
  - left. reflexivity.
  - simpl. lia.
Defined.

(** ** The order of the start points *)

Section StartOrder.

Lemma entry_leb_iff (a b : entry) :
  entry_leb a b = true
  <-> fst a < fst b
      \/ (fst a = fst b
          /\ (fst (snd a) < fst (snd b)
              \/ (fst (snd a) = fst (snd b) /\ snd (snd a) <= snd (snd b)))).
Proof.
  destruct a as [d1 [x1 y1]], b as [d2 [x2 y2]]. unfold entry_leb. simpl.
  rewrite orb_true_iff, andb_true_iff, orb_true_iff, andb_true_iff.
  rewrite !Z.ltb_lt, !Z.eqb_eq, Z.leb_le. tauto.
Qed.

Lemma entry_leb_antisym (a b : entry) :
  entry_leb a b = true -> entry_leb b a = true -> a = b.
Proof.
  rewrite !entry_leb_iff.
  destruct a as [d1 [x1 y1]], b as [d2 [x2 y2]]. simpl.
  intros H1 H2. assert (d1 = d2 /\ x1 = x2 /\ y1 = y2) as (-> & -> & ->) by lia.
  reflexivity.
Qed.

Lemma entry_leb_trans (a b c : entry) :
  entry_leb a b = true -> entry_leb b c = true -> entry_leb a c = true.
Proof.
  rewrite !entry_leb_iff.
  destruct a as [d1 [x1 y1]], b as [d2 [x2 y2]], c as [d3 [x3 y3]]. simpl.
  lia.
Qed.

Lemma entry_leb_refl (a : entry) : entry_leb a a = true.
Proof. apply entry_leb_iff. destruct a as [d [x1 y1]]. simpl. lia. Qed.

Lemma queue_sorted_least (q : list entry) : forall a,
  queue_sorted (a :: q) -> forall b, In b (a :: q) -> entry_leb a b = true.
Proof.
  unfold queue_sorted. induction q as [|h q IH]; intros a Hs b Hb.
  - destruct Hb as [<- | []]. apply entry_leb_refl.
  - inversion Hs as [|? ? Hrest Hhd]; subst.
    inversion Hhd as [|? ? Hah]; subst.
    destruct Hb as [<- | Hb]; [apply entry_leb_refl|].
    apply entry_leb_trans with h; [exact Hah | apply (IH h Hrest b Hb)].
Qed.

(** Two ascending lists with the same entries are the same list. *)
Lemma queue_sorted_unique (q1 : list entry) : forall q2,
  queue_sorted q1 -> queue_sorted q2 -> Permutation q1 q2 -> q1 = q2.
Proof.
  induction q1 as [|a q1 IH]; intros q2 H1 H2 Hperm.
  - apply Permutation_nil in Hperm. congruence.
  - destruct q2 as [|b q2];
      [apply Permutation_sym, Permutation_nil in Hperm; discriminate|].
    assert (Hab : a = b).
    { apply entry_leb_antisym.
      - apply (queue_sorted_least q1 a H1).
        apply (Permutation_in _ (Permutation_sym Hperm)). left; reflexivity.
      - apply (queue_sorted_least q2 b H2).
        apply (Permutation_in _ Hperm). left; reflexivity. }
    subst b. f_equal. apply IH.
    + unfold queue_sorted in *. inversion H1; assumption.
    + unfold queue_sorted in *. inversion H2; assumption.
    + apply (Permutation_cons_inv Hperm).
Qed.

Lemma heappush_perm (heap : list entry) (item : entry) :
  Permutation (heappush heap item) (item :: heap).
Proof.
  induction heap as [|h t IH]; simpl; [apply Permutation_refl|].
  destruct (entry_leb item h); [apply Permutation_refl|].
  eapply Permutation_trans; [apply perm_skip; exact IH | apply perm_swap].
Qed.

Lemma heapify_perm (l : list entry) : Permutation (heapify l) l.
Proof.
  unfold heapify.
  assert (H : forall heap, Permutation (fold_left heappush l heap) (l ++ heap)).
  { induction l as [|e l IH]; intros heap; simpl; [apply Permutation_refl|].
    eapply Permutation_trans; [apply IH|].
    eapply Permutation_trans;
      [apply Permutation_app_head; apply heappush_perm|].
    apply Permutation_sym, Permutation_middle. }
  specialize (H []). rewrite app_nil_r in H. exact H.
Qed.

Lemma initial_state_perm (sp1 sp2 : list QgsPointXY) :
  Permutation sp1 sp2 -> initial_state sp1 = initial_state sp2.
Proof.
  intros Hperm. unfold initial_state. f_equal.
  apply queue_sorted_unique; try apply heapify_sorted.
  eapply Permutation_trans; [apply heapify_perm|].
  eapply Permutation_trans; [|apply Permutation_sym, heapify_perm].
  apply Permutation_map. exact Hperm.
Qed.

End StartOrder.

(** X11.  The result of [dijkstra] does not depend on the order in which the
    start points are given. *)
Theorem dijkstra_start_points_order
  (union_class : list buffered_line -> geometry_class) (graph : QgsGraph)
  (max_distance buffer_distance : Z) (sp1 sp2 : list QgsPointXY) :
  Permutation sp1 sp2 ->
  dijkstra union_class graph max_distance buffer_distance sp1
  = dijkstra union_class graph max_distance buffer_distance sp2.
Proof.
  intros Hperm. unfold dijkstra, search, pop_bound.
  rewrite (initial_state_perm sp1 sp2 Hperm), (Permutation_length Hperm).
  reflexivity.
Qed.

(** Two start points on the split road, in either order. *)
Lemma dijkstra_start_points_order_witness :
  dijkstra (fun _ => Polygon) split_graph 500 200 [seed; PointXY 300 0]
  = dijkstra (fun _ => Polygon) split_graph 500 200 [PointXY 300 0; seed].
Proof.
  apply dijkstra_start_points_order. apply perm_swap.
Defined.


(** ** The loop over the shelters *)

Section ShelterLoop.

Variable union_class : list buffered_line -> geometry_class.
Variable distance : Z.
Variable check_canceled : nat -> bool.

#[local] Abbreviation loop :=
  (shelter_loop union_class distance check_canceled).

Lemma dijkstra_singleton (g : QgsGraph) (buf : Z) (seeds : list QgsPointXY)
  (merge : list geometry) :
  dijkstra union_class g distance buf seeds = Some (Returns merge) ->
  exists u, merge = [u].
Proof.
  unfold dijkstra. destruct (search g distance buf seeds) as [[st|e]|];
    cbn [bind]; intros H; inversion H. eexists. reflexivity.
Qed.

Lemma add_buffered_polygon_one (id : Z) (u : geometry) (out : output) :
  exists added,
    shelter_buffer_layer (add_buffered_polygons id [u] out)
    = shelter_buffer_layer out ++ added
    /\ subsequence (map shelter_id added) [id]
    /\ Forall (fun ft => geom_class (feature_geometry ft) = Polygon) added.
Proof.
  unfold add_buffered_polygons. cbn [fold_left].
  destruct (geom_class u) eqn:Hu.
  - exists [Feature u id]. cbn. repeat split.
    + repeat constructor.
    + repeat constructor. exact Hu.
  - exists []. cbn. rewrite app_nil_r. repeat split; repeat constructor.
  - exists []. cbn. rewrite app_nil_r. repeat split; repeat constructor.
Qed.

Lemma subsequence_app {A : Type} (l1 l2 k1 k2 : list A) :
  subsequence l1 l2 -> subsequence k1 k2 -> subsequence (l1 ++ k1) (l2 ++ k2).
Proof.
  induction 1; intros Hk; cbn; [exact Hk | |]; constructor; auto.
Qed.

Lemma shelter_loop_added (shelters : list shelter_feature) :
  forall i point out out',
    loop i shelters point out = Some (LoopReturns out') ->
    exists added,
      shelter_buffer_layer out' = shelter_buffer_layer out ++ added
      /\ subsequence (map shelter_id added) (map shelter_fid shelters)
      /\ Forall (fun ft => geom_class (feature_geometry ft) = Polygon) added.
Proof.
  induction shelters as [|f rest IH]; intros i point out out' Hrun.
  - cbn in Hrun. inversion Hrun. exists []. rewrite app_nil_r.
    repeat split; constructor.
  - cbn [shelter_loop] in Hrun.
    destruct (extract_road_nodes (shelter_roads f)) as [g|e];
      [|discriminate].
    destruct (match shelter_geom f with
              | PointGeometry p => Some p
              | OtherShelterGeometry => point
              end) as [pt|]; [|discriminate].
    destruct (nearest_point g pt _) as [seeds|e]; [|discriminate].
    destruct (dijkstra union_class g distance 200 seeds)
      as [[merge|e]|] eqn:Hd; try discriminate.
    destruct (dijkstra_singleton g 200 seeds merge Hd) as (u & ->).
    destruct (check_canceled i).
    + inversion Hrun. exists []. rewrite app_nil_r.
      repeat split; [|constructor].
      clear. induction (f :: rest); cbn; constructor; assumption.
    + apply IH in Hrun. destruct Hrun as (added & Hlayer & Hsub & Hall).
      destruct (add_buffered_polygon_one (shelter_fid f) u out)
        as (first & Hfirst & Hsub1 & Hall1).
      exists (first ++ added). rewrite Hlayer, Hfirst, app_assoc.
      split; [reflexivity|]. split.
      * rewrite map_app.
        exact (subsequence_app _ [shelter_fid f] _ _ Hsub1 Hsub).
      * apply Forall_app. split; assumption.
Qed.

End ShelterLoop.

(** X12.  A shelter whose geometry is not a point is processed at the point
    of the last point shelter before it, with its own roads, scale and fid:
    the loop gives the same result on the shelters and on the shelters with
    those points written in. *)
Theorem shelter_loop_carries_point
  (union_class : list buffered_line -> geometry_class) (distance : Z)
  (check_canceled : nat -> bool) (shelters : list shelter_feature) :
  forall i point out,
    shelter_loop union_class distance check_canceled i shelters point out
    = shelter_loop union_class distance check_canceled i
                   (carry_points point shelters) point out.
Proof.
  induction shelters as [|f rest IH]; intros i point out; [reflexivity|].
  cbn [carry_points].
  destruct (shelter_geom f) as [p|] eqn:Hgeom; [|destruct point as [p|]].
  - cbn [shelter_loop]. rewrite Hgeom.
    destruct (extract_road_nodes (shelter_roads f)); [|reflexivity].
    destruct (nearest_point _ p _); [|reflexivity].
    destruct (dijkstra _ _ _ _ _) as [[merge|e]|]; try reflexivity.
    destruct (check_canceled i); [reflexivity | apply IH].
  - cbn [shelter_loop shelter_roads shelter_geom shelter_scale shelter_fid].
    rewrite Hgeom.
    destruct (extract_road_nodes (shelter_roads f)); [|reflexivity].
    destruct (nearest_point _ p _); [|reflexivity].
    destruct (dijkstra _ _ _ _ _) as [[merge|e]|]; try reflexivity.
    destruct (check_canceled i); [reflexivity | apply IH].
  - cbn [shelter_loop]. rewrite Hgeom.
    destruct (extract_road_nodes (shelter_roads f)); reflexivity.
Qed.

(** X13.  When the first shelter of the layer has a geometry that is not a
    point and its roads are (multi-)polylines or empty, the loop ends with
    an [UnboundLocalError]: the graph is built, and [point] is read before
    any assignment. *)
Theorem shelter_loop_first_not_point_raises
  (union_class : list buffered_line -> geometry_class) (distance : Z)
  (check_canceled : nat -> bool) (shelter : shelter_feature)
  (rest : list shelter_feature) (out : output) :
  shelter_geom shelter = OtherShelterGeometry ->
  Forall is_line_geometry (shelter_roads shelter) ->
  shelter_loop union_class distance check_canceled 0 (shelter :: rest) None
               out
  = Some (LoopRaises UnboundLocalError).
Proof.
  intros Hgeom Hroads.
  destruct (builder_returns_measured _ Hroads) as (g & Hg & _).
  cbn [shelter_loop]. rewrite Hg, Hgeom. reflexivity.
Qed.

(** The second of the three shelters, put first. *)
Lemma shelter_loop_first_not_point_raises_witness :
  shelter_loop (fun _ => Polygon) 500 (fun _ => false) 0
               (skipn 1 three_shelters) None (Output [] [])
  = Some (LoopRaises UnboundLocalError).
Proof.
  apply (shelter_loop_first_not_point_raises
           (fun _ => Polygon) 500 (fun _ => false)
           (ShelterFeature 8 OtherShelterGeometry (-1) far_roads)).
  - reflexivity.
  - repeat constructor; discriminate.
Defined.

(** X14.  When the loop returns, the layer is the layer before followed by
    polygons only, at most one per shelter and in the order of the shelters,
    each with the fid of its shelter as [shelter_id]. *)
Theorem shelter_loop_stores_polygons_of_shelters
  (union_class : list buffered_line -> geometry_class) (distance : Z)
  (check_canceled : nat -> bool) (shelters : list shelter_feature)
  (i : nat) (point : option QgsPointXY) (out out' : output) :
  shelter_loop union_class distance check_canceled i shelters point out
  = Some (LoopReturns out') ->
  exists added,
    shelter_buffer_layer out' = shelter_buffer_layer out ++ added
    /\ subsequence (map shelter_id added) (map shelter_fid shelters)
    /\ Forall (fun ft => geom_class (feature_geometry ft) = Polygon) added.
Proof.
  apply shelter_loop_added.
Qed.

(** The three shelters, every union a polygon. *)
Lemma shelter_loop_stores_polygons_of_shelters_witness :
  exists added,
    shelter_buffer_layer three_shelters_output = [] ++ added
    /\ subsequence (map shelter_id added) (map shelter_fid three_shelters)
    /\ Forall (fun ft => geom_class (feature_geometry ft) = Polygon) added.
Proof.
  apply (shelter_loop_stores_polygons_of_shelters
           (fun _ => Polygon) 500 (fun _ => false) three_shelters 0 None
           (Output [] []) three_shelters_output).
  vm_compute. reflexivity.
Defined.

(** X15.  When the callback answers true in the iteration of some shelter
    and the loop returns, nothing is stored for that shelter or a later one:
    the result is the one of the loop over the shelters before it. *)
Theorem shelter_loop_cancelled
  (union_class : list buffered_line -> geometry_class) (distance : Z)
  (check_canceled : nat -> bool) (before rest : list shelter_feature) :
  forall i point out out',
    shelter_loop union_class distance check_canceled i (before ++ rest)
                 point out
    = Some (LoopReturns out') ->
    check_canceled (i + length before)%nat = true ->
    shelter_loop union_class distance check_canceled i before point out
    = Some (LoopReturns out').
Proof.
  induction before as [|f before IH]; intros i point out out' Hrun Hcancel.
  - cbn [length] in Hcancel. rewrite Nat.add_0_r in Hcancel.
    cbn [app] in Hrun. cbn [shelter_loop].
    destruct rest as [|f rest]; [exact Hrun|].
    cbn [shelter_loop] in Hrun.
    destruct (extract_road_nodes (shelter_roads f)); [|discriminate].
    destruct (match shelter_geom f with
              | PointGeometry p => Some p
              | OtherShelterGeometry => point
              end) as [pt|]; [|discriminate].
    destruct (nearest_point _ pt _); [|discriminate].
    destruct (dijkstra _ _ _ _ _) as [[merge|e]|]; try discriminate.
    rewrite Hcancel in Hrun. exact Hrun.
  - cbn [app shelter_loop] in Hrun |- *.
    destruct (extract_road_nodes (shelter_roads f)); [|exact Hrun].
    destruct (match shelter_geom f with
              | PointGeometry p => Some p
              | OtherShelterGeometry => point
              end) as [pt|]; [|exact Hrun].
    destruct (nearest_point _ pt _); [|exact Hrun].
    destruct (dijkstra _ _ _ _ _) as [[merge|e]|]; try exact Hrun.
    destruct (check_canceled i); [exact Hrun|].
    apply IH; [exact Hrun|].
    cbn [length] in Hcancel. rewrite Nat.add_succ_r in Hcancel.
    exact Hcancel.
Qed.

(** The three shelters, cancelled in the second iteration. *)
Lemma shelter_loop_cancelled_witness :
  shelter_loop (fun _ => Polygon) 500 (fun i => Nat.eqb i 1) 0
               (firstn 1 three_shelters) None (Output [] [])
  = Some (LoopReturns one_shelter_output).
Proof.
  apply (shelter_loop_cancelled
           (fun _ => Polygon) 500 (fun i => Nat.eqb i 1)
           (firstn 1 three_shelters) (skipn 1 three_shelters)).
  - vm_compute. reflexivity.
  - reflexivity.
Defined.


(** ** The order of the stages *)

Ltac stage_case n :=
  exists n; split; [lia|]; split; [reflexivity|]; split;
  [ intros j Hj; repeat (destruct j as [|j]; [assumption|]); lia
  | intros Hn; first [assumption | lia] ].

Ltac stage_cases check_canceled n :=
  lazymatch goal with
  | |- context [if check_canceled n then _ else _] =>
      destruct (check_canceled n) eqn:?;
      [stage_case n | stage_cases check_canceled (S n)]
  | _ => stage_case n
  end.

(** X16.  In the mode before the change the methods that run are a prefix
    of the seventeen methods in their fixed order, never an empty one: the
    first method runs without a question, and with [n] the number of
    questions answered false before the first true one (16 when none is),
    the first [n + 1] methods run and no other. *)
Theorem create_area_data_runs_prefix (check_canceled : nat -> bool) :
  exists n,
    (n <= 16)%nat
    /\ create_area_data false check_canceled
       = firstn (S n) before_change_stages
    /\ (forall j, (j < n)%nat -> check_canceled j = false)
    /\ ((n < 16)%nat -> check_canceled n = true).
Proof.
  unfold create_area_data. stage_cases check_canceled 0%nat.
Qed.

(** ** The encoding of a DBF file *)

(** X17.  [__detect_encoding] never returns an empty name, ['MacRoman'],
    ['Windows-1254'] or ['Windows-1252']; and it returns ['SHIFT_JIS'] only
    for a DBF file that exists and for which one of these three names or
    ['SHIFT_JIS'] itself was detected, so that a file without a detected
    encoding is read as ['UTF-8'], not as ['SHIFT_JIS']. *)
Theorem detect_encoding_never_legacy
  (dbf_exists : bool) (detected : option String.string) :
  detect_encoding dbf_exists detected <> ""%string
  /\ detect_encoding dbf_exists detected <> "MacRoman"%string
  /\ detect_encoding dbf_exists detected <> "Windows-1254"%string
  /\ detect_encoding dbf_exists detected <> "Windows-1252"%string
  /\ (detect_encoding dbf_exists detected = "SHIFT_JIS"%string ->
      dbf_exists = true
      /\ exists enc,
           detected = Some enc
           /\ In enc ["MacRoman"%string; "Windows-1254"%string;
                      "Windows-1252"%string; "SHIFT_JIS"%string]).
Proof.
  unfold detect_encoding.
  destruct dbf_exists; [|repeat split; discriminate].
  destruct detected as [enc|].
  - destruct (String.eqb_spec enc ""%string) as [->|Hempty].
    + cbn. repeat split; discriminate.
    + destruct (String.eqb_spec enc "MacRoman"%string) as [->|Hmac].
      { cbn. repeat split; try discriminate.
        eexists. split; [reflexivity | cbn; auto]. }
      destruct (String.eqb_spec enc "Windows-1254"%string) as [->|H1254].
      { cbn. repeat split; try discriminate.
        eexists. split; [reflexivity | cbn; auto]. }
      destruct (String.eqb_spec enc "Windows-1252"%string) as [->|H1252].
      { cbn. repeat split; try discriminate.
        eexists. split; [reflexivity | cbn; auto]. }
      destruct (String.eqb_spec enc ""%string) as [->|_]; [tauto|].
      repeat split; try assumption.
      subst enc. eexists. split; [reflexivity | cbn; auto].
  - cbn. repeat split; discriminate.
Qed.

(** ** The distance of two points *)

